(** * Negotiation core of the livekit-server RTC transport

    Shallow embedding of [pkg/rtc/transport.go] (PCTransport: offer/answer
    state machine, candidate queue, ICE restart handling, SDP helpers) and
    of the DynacastQuality aggregator.  The pion WebRTC stack is an
    external collaborator: its calls are modelled by the signaling-state
    rules of JSEP plus oracles deciding whether a call succeeds. *)

From Stdlib Require Import String Ascii ZArith List Bool Lia.
From stdpp Require Import base gmap strings list.

Import ListNotations.
Open Scope string_scope.

(* ------------------------------------------------------------------ *)
(** ** Errors *)

Inductive error :=
  | ErrSessionDescriptionNoFingerprint
  | ErrSessionDescriptionConflictingFingerprints
  | ErrSessionDescriptionInvalidFingerprint
  | ErrSessionDescriptionMissingIceUfrag
  | ErrSessionDescriptionMissingIcePwd
  | ErrSessionDescriptionConflictingIceUfrag
  | ErrSessionDescriptionConflictingIcePwd
  | ErrIceRestartWithoutLocalSDP
  | ErrUnmarshal
  (** an error returned by a pion peer-connection call *)
  | ErrStack (call : string)
  (** an error returned by the [onRemoteDescripitonSettled] callback *)
  | ErrCallback.

Inductive result (A : Type) :=
  | Ok (a : A)
  | Err (e : error).
Arguments Ok {A} a.
Arguments Err {A} e.

(* ------------------------------------------------------------------ *)
(** ** Parsed SDP (github.com/pion/sdp/v3) *)

Module sdp.

Record Attribute := { Key : string; Value : string }.

Record MediaDescription := {
  Media : string;                 (* MediaName.Media *)
  MediaAttributes : list Attribute
}.

Record SessionDescription := {
  Attributes : list Attribute;
  MediaDescriptions : list MediaDescription
}.

(** The [Attribute] methods of SessionDescription and MediaDescription:
    the value of the first attribute with the given key. *)
Fixpoint attribute (key : string) (attrs : list Attribute) : option string :=
  match attrs with
  | [] => None
  | a :: rest => if String.eqb (Key a) key then Some (Value a) else attribute key rest
  end.

Definition AttrKeyCandidate := "candidate".
Definition AttrKeyMID := "mid".

End sdp.

(** [strings.Split(s, " ")] *)
Fixpoint splitSpace (s : string) : list string :=
  match s with
  | EmptyString => [""]
  | String c s' =>
      let rest := splitSpace s' in
      if Ascii.eqb c " "%char then "" :: rest
      else match rest with
           | h :: t => String c h :: t
           | [] => [String c ""]
           end
  end.

(** [strings.Contains(s, sub)] *)
Fixpoint contains (s sub : string) : bool :=
  String.prefix sub s ||
  match s with
  | EmptyString => false
  | String _ s' => contains s' sub
  end.

(** [extractFingerprint]: collect the first [fingerprint] attribute of the
    session level and of each media level, check they agree, split. *)
Definition collectFingerprints (desc : sdp.SessionDescription) : list string :=
  let fromSession :=
    match sdp.attribute "fingerprint" (sdp.Attributes desc) with
    | Some f => [f] | None => [] end in
  fromSession ++
  flat_map (fun m => match sdp.attribute "fingerprint" (sdp.MediaAttributes m) with
                     | Some f => [f] | None => [] end)
           (sdp.MediaDescriptions desc).

Definition extractFingerprint (desc : sdp.SessionDescription) : result (string * string) :=
  let fingerprints := collectFingerprints desc in
  match fingerprints with
  | [] => Err ErrSessionDescriptionNoFingerprint
  | f0 :: _ =>
      if existsb (fun m => negb (String.eqb m f0)) fingerprints
      then Err ErrSessionDescriptionConflictingFingerprints
      else match splitSpace f0 with
           | [p0; p1] => Ok (p1, p0)
           | _ => Err ErrSessionDescriptionInvalidFingerprint
           end
  end.

(** [extractICECredential] *)
Definition collectAttr (key : string) (desc : sdp.SessionDescription) : list string :=
  match sdp.attribute key (sdp.Attributes desc) with
  | Some f => [f] | None => [] end ++
  flat_map (fun m => match sdp.attribute key (sdp.MediaAttributes m) with
                     | Some f => [f] | None => [] end)
           (sdp.MediaDescriptions desc).

Definition extractICECredential (desc : sdp.SessionDescription) : result (string * string) :=
  let remoteUfrags := collectAttr "ice-ufrag" desc in
  let remotePwds := collectAttr "ice-pwd" desc in
  match remoteUfrags, remotePwds with
  | [], _ => Err ErrSessionDescriptionMissingIceUfrag
  | _, [] => Err ErrSessionDescriptionMissingIcePwd
  | u0 :: _, p0 :: _ =>
      if existsb (fun m => negb (String.eqb m u0)) remoteUfrags
      then Err ErrSessionDescriptionConflictingIceUfrag
      else if existsb (fun m => negb (String.eqb m p0)) remotePwds
      then Err ErrSessionDescriptionConflictingIcePwd
      else Ok (u0, p0)
  end.

(** The [filterAttributes] closure of [filterCandidates]. *)
Definition filterAttributes (preferTCP : bool) (attrs : list sdp.Attribute)
  : list sdp.Attribute :=
  List.filter (fun a =>
            if String.eqb (sdp.Key a) sdp.AttrKeyCandidate then
              if preferTCP then contains (sdp.Value a) "tcp" else true
            else true) attrs.

Definition filterParsed (preferTCP : bool) (parsed : sdp.SessionDescription)
  : sdp.SessionDescription :=
  {| sdp.Attributes := filterAttributes preferTCP (sdp.Attributes parsed);
     sdp.MediaDescriptions :=
       map (fun m => {| sdp.Media := sdp.Media m;
                        sdp.MediaAttributes := filterAttributes preferTCP (sdp.MediaAttributes m) |})
           (sdp.MediaDescriptions parsed) |}.

(** Spec reading of a candidate's transport: the third space-separated
    field of the attribute value, compared case-insensitively with TCP. *)
Definition candidateTransportIsTCP (value : string) : bool :=
  match nth_error (splitSpace value) 2 with
  | Some tr => String.eqb tr "tcp" || String.eqb tr "TCP"
  | None => false
  end.

(* ------------------------------------------------------------------ *)
(** ** The peer-connection (github.com/pion/webrtc/v3) *)

Inductive SDPType := SDPTypeOffer | SDPTypeAnswer.

Definition SDPType_eqb (a b : SDPType) : bool :=
  match a, b with
  | SDPTypeOffer, SDPTypeOffer | SDPTypeAnswer, SDPTypeAnswer => true
  | _, _ => false
  end.

(** [webrtc.SessionDescription]: its type and its SDP text; the text is
    represented by a tag and by the result of [Unmarshal] on it
    ([None] when the text does not parse). *)
Record SessionDescription := {
  sdType : SDPType;
  sdText : nat;
  sdParsed : option sdp.SessionDescription
}.

Record ICECandidateInit := { Candidate : string }.

Record OfferOptions := { ICERestart : bool }.

Inductive SignalingState :=
  | SignalingStateStable
  | SignalingStateHaveLocalOffer
  | SignalingStateHaveRemoteOffer.

Inductive ICEGatheringState :=
  | ICEGatheringStateNew
  | ICEGatheringStateGathering
  | ICEGatheringStateComplete.

Definition isGathering (g : ICEGatheringState) : bool :=
  match g with ICEGatheringStateGathering => true | _ => false end.

Record PeerConnection := {
  signalingState : SignalingState;
  localDescription : option SessionDescription;
  currentRemoteDescription : option SessionDescription;
  pendingRemoteDescription : option SessionDescription;
  iceGatheringState : ICEGatheringState;
  connectionClosed : bool
}.

(** [RemoteDescription()] returns the pending remote description if any,
    else the current one. *)
Definition RemoteDescription (p : PeerConnection) : option SessionDescription :=
  match pendingRemoteDescription p with
  | Some sd => Some sd
  | None => currentRemoteDescription p
  end.

(** What the stack decides on its own: the offer it creates and whether
    each call that may fail succeeds. *)
Record Stack := {
  createOffer : PeerConnection -> bool -> option SessionDescription;
  setLocalDescriptionOk : PeerConnection -> SessionDescription -> bool;
  setRemoteDescriptionOk : PeerConnection -> SessionDescription -> bool;
  addICECandidateOk : PeerConnection -> ICECandidateInit -> bool
}.

(** [SetLocalDescription] with an offer: allowed from stable and from
    have-local-offer (JSEP signaling transitions). *)
Definition pcSetLocalDescription (st : Stack) (p : PeerConnection) (sd : SessionDescription)
  : option PeerConnection :=
  if setLocalDescriptionOk st p sd then
    match sdType sd, signalingState p with
    | SDPTypeOffer, (SignalingStateStable | SignalingStateHaveLocalOffer) =>
        Some {| signalingState := SignalingStateHaveLocalOffer;
                localDescription := Some sd;
                currentRemoteDescription := currentRemoteDescription p;
                pendingRemoteDescription := pendingRemoteDescription p;
                iceGatheringState := iceGatheringState p;
                connectionClosed := connectionClosed p |}
    | _, _ => None
    end
  else None.

(** [SetRemoteDescription]: an answer is accepted in have-local-offer and
    becomes the current remote description; an offer is accepted in stable
    or have-remote-offer and becomes the pending one. *)
Definition pcSetRemoteDescription (st : Stack) (p : PeerConnection) (sd : SessionDescription)
  : option PeerConnection :=
  if setRemoteDescriptionOk st p sd then
    match sdType sd, signalingState p with
    | SDPTypeAnswer, SignalingStateHaveLocalOffer =>
        Some {| signalingState := SignalingStateStable;
                localDescription := localDescription p;
                currentRemoteDescription := Some sd;
                pendingRemoteDescription := None;
                iceGatheringState := iceGatheringState p;
                connectionClosed := connectionClosed p |}
    | SDPTypeOffer, (SignalingStateStable | SignalingStateHaveRemoteOffer) =>
        Some {| signalingState := SignalingStateHaveRemoteOffer;
                localDescription := localDescription p;
                currentRemoteDescription := currentRemoteDescription p;
                pendingRemoteDescription := Some sd;
                iceGatheringState := iceGatheringState p;
                connectionClosed := connectionClosed p |}
    | _, _ => None
    end
  else None.

Definition pcSetGathering (p : PeerConnection) (g : ICEGatheringState) : PeerConnection :=
  {| signalingState := signalingState p;
     localDescription := localDescription p;
     currentRemoteDescription := currentRemoteDescription p;
     pendingRemoteDescription := pendingRemoteDescription p;
     iceGatheringState := g;
     connectionClosed := connectionClosed p |}.

(** Calls of the transport into the outside world: peer-connection
    mutations (with their outcome) and user callbacks. *)
Inductive Event :=
  | PcSetLocalDescription (sd : SessionDescription) (ok : bool)
  | PcSetRemoteDescription (sd : SessionDescription) (ok : bool)
  | PcAddICECandidate (c : ICECandidateInit) (ok : bool)
  | OnOfferCalled (sd : SessionDescription)
  | OnNegotiationFailedCalled
  | OnRemoteDescripitonSettledCalled.

(* ------------------------------------------------------------------ *)
(** ** PCTransport *)

Inductive NegotiationState :=
  | negotiationStateNone
  | negotiationStateClient   (* waiting for client answer *)
  | negotiationRetry.        (* need to Negotiate again *)

Definition isNegotiationStateNone (s : NegotiationState) : bool :=
  match s with negotiationStateNone => true | _ => false end.

(** The function held by the 150 ms debouncer ([bep/debounce]): the last
    one handed to it runs when the timer fires. *)
Inductive DebouncedFunc := DebouncedNoop | DebouncedCreateAndSendOffer.

(** [onOffer], [onNegotiationFailed]: registered or not;
    [onRemoteDescripitonSettled]: registered with the error it returns;
    [signalStateCheckTimer]: the epoch of the armed failure timer. *)
Record PCTransport := {
  pc : PeerConnection;
  pendingCandidates : list ICECandidateInit;
  debounced : option DebouncedFunc;
  negotiationPending : gset string;
  onOffer : bool;
  onRemoteDescripitonSettled : option (option error);
  restartAfterGathering : bool;
  restartAtNextOffer : bool;
  negotiationState : NegotiationState;
  negotiateCounter : Z;
  signalStateCheckTimer : option Z;
  onNegotiationFailed : bool;
  previousAnswer : option SessionDescription;
  preferTCP : bool;
  currentOfferIceCredential : string;
  pendingRestartIceOffer : option SessionDescription
}.

Definition set_pc (t : PCTransport) (v : PeerConnection) : PCTransport :=
  Build_PCTransport v (pendingCandidates t) (debounced t) (negotiationPending t) (onOffer t) (onRemoteDescripitonSettled t) (restartAfterGathering t) (restartAtNextOffer t) (negotiationState t) (negotiateCounter t) (signalStateCheckTimer t) (onNegotiationFailed t) (previousAnswer t) (preferTCP t) (currentOfferIceCredential t) (pendingRestartIceOffer t).
Definition set_pendingCandidates (t : PCTransport) (v : list ICECandidateInit) : PCTransport :=
  Build_PCTransport (pc t) v (debounced t) (negotiationPending t) (onOffer t) (onRemoteDescripitonSettled t) (restartAfterGathering t) (restartAtNextOffer t) (negotiationState t) (negotiateCounter t) (signalStateCheckTimer t) (onNegotiationFailed t) (previousAnswer t) (preferTCP t) (currentOfferIceCredential t) (pendingRestartIceOffer t).
Definition set_debounced (t : PCTransport) (v : option DebouncedFunc) : PCTransport :=
  Build_PCTransport (pc t) (pendingCandidates t) v (negotiationPending t) (onOffer t) (onRemoteDescripitonSettled t) (restartAfterGathering t) (restartAtNextOffer t) (negotiationState t) (negotiateCounter t) (signalStateCheckTimer t) (onNegotiationFailed t) (previousAnswer t) (preferTCP t) (currentOfferIceCredential t) (pendingRestartIceOffer t).
Definition set_negotiationPending (t : PCTransport) (v : gset string) : PCTransport :=
  Build_PCTransport (pc t) (pendingCandidates t) (debounced t) v (onOffer t) (onRemoteDescripitonSettled t) (restartAfterGathering t) (restartAtNextOffer t) (negotiationState t) (negotiateCounter t) (signalStateCheckTimer t) (onNegotiationFailed t) (previousAnswer t) (preferTCP t) (currentOfferIceCredential t) (pendingRestartIceOffer t).
Definition set_onOffer (t : PCTransport) (v : bool) : PCTransport :=
  Build_PCTransport (pc t) (pendingCandidates t) (debounced t) (negotiationPending t) v (onRemoteDescripitonSettled t) (restartAfterGathering t) (restartAtNextOffer t) (negotiationState t) (negotiateCounter t) (signalStateCheckTimer t) (onNegotiationFailed t) (previousAnswer t) (preferTCP t) (currentOfferIceCredential t) (pendingRestartIceOffer t).
Definition set_onRemoteDescripitonSettled (t : PCTransport) (v : option (option error)) : PCTransport :=
  Build_PCTransport (pc t) (pendingCandidates t) (debounced t) (negotiationPending t) (onOffer t) v (restartAfterGathering t) (restartAtNextOffer t) (negotiationState t) (negotiateCounter t) (signalStateCheckTimer t) (onNegotiationFailed t) (previousAnswer t) (preferTCP t) (currentOfferIceCredential t) (pendingRestartIceOffer t).
Definition set_restartAfterGathering (t : PCTransport) (v : bool) : PCTransport :=
  Build_PCTransport (pc t) (pendingCandidates t) (debounced t) (negotiationPending t) (onOffer t) (onRemoteDescripitonSettled t) v (restartAtNextOffer t) (negotiationState t) (negotiateCounter t) (signalStateCheckTimer t) (onNegotiationFailed t) (previousAnswer t) (preferTCP t) (currentOfferIceCredential t) (pendingRestartIceOffer t).
Definition set_restartAtNextOffer (t : PCTransport) (v : bool) : PCTransport :=
  Build_PCTransport (pc t) (pendingCandidates t) (debounced t) (negotiationPending t) (onOffer t) (onRemoteDescripitonSettled t) (restartAfterGathering t) v (negotiationState t) (negotiateCounter t) (signalStateCheckTimer t) (onNegotiationFailed t) (previousAnswer t) (preferTCP t) (currentOfferIceCredential t) (pendingRestartIceOffer t).
Definition set_negotiationState (t : PCTransport) (v : NegotiationState) : PCTransport :=
  Build_PCTransport (pc t) (pendingCandidates t) (debounced t) (negotiationPending t) (onOffer t) (onRemoteDescripitonSettled t) (restartAfterGathering t) (restartAtNextOffer t) v (negotiateCounter t) (signalStateCheckTimer t) (onNegotiationFailed t) (previousAnswer t) (preferTCP t) (currentOfferIceCredential t) (pendingRestartIceOffer t).
Definition set_negotiateCounter (t : PCTransport) (v : Z) : PCTransport :=
  Build_PCTransport (pc t) (pendingCandidates t) (debounced t) (negotiationPending t) (onOffer t) (onRemoteDescripitonSettled t) (restartAfterGathering t) (restartAtNextOffer t) (negotiationState t) v (signalStateCheckTimer t) (onNegotiationFailed t) (previousAnswer t) (preferTCP t) (currentOfferIceCredential t) (pendingRestartIceOffer t).
Definition set_signalStateCheckTimer (t : PCTransport) (v : option Z) : PCTransport :=
  Build_PCTransport (pc t) (pendingCandidates t) (debounced t) (negotiationPending t) (onOffer t) (onRemoteDescripitonSettled t) (restartAfterGathering t) (restartAtNextOffer t) (negotiationState t) (negotiateCounter t) v (onNegotiationFailed t) (previousAnswer t) (preferTCP t) (currentOfferIceCredential t) (pendingRestartIceOffer t).
Definition set_onNegotiationFailed (t : PCTransport) (v : bool) : PCTransport :=
  Build_PCTransport (pc t) (pendingCandidates t) (debounced t) (negotiationPending t) (onOffer t) (onRemoteDescripitonSettled t) (restartAfterGathering t) (restartAtNextOffer t) (negotiationState t) (negotiateCounter t) (signalStateCheckTimer t) v (previousAnswer t) (preferTCP t) (currentOfferIceCredential t) (pendingRestartIceOffer t).
Definition set_previousAnswer (t : PCTransport) (v : option SessionDescription) : PCTransport :=
  Build_PCTransport (pc t) (pendingCandidates t) (debounced t) (negotiationPending t) (onOffer t) (onRemoteDescripitonSettled t) (restartAfterGathering t) (restartAtNextOffer t) (negotiationState t) (negotiateCounter t) (signalStateCheckTimer t) (onNegotiationFailed t) v (preferTCP t) (currentOfferIceCredential t) (pendingRestartIceOffer t).
Definition set_preferTCP (t : PCTransport) (v : bool) : PCTransport :=
  Build_PCTransport (pc t) (pendingCandidates t) (debounced t) (negotiationPending t) (onOffer t) (onRemoteDescripitonSettled t) (restartAfterGathering t) (restartAtNextOffer t) (negotiationState t) (negotiateCounter t) (signalStateCheckTimer t) (onNegotiationFailed t) (previousAnswer t) v (currentOfferIceCredential t) (pendingRestartIceOffer t).
Definition set_currentOfferIceCredential (t : PCTransport) (v : string) : PCTransport :=
  Build_PCTransport (pc t) (pendingCandidates t) (debounced t) (negotiationPending t) (onOffer t) (onRemoteDescripitonSettled t) (restartAfterGathering t) (restartAtNextOffer t) (negotiationState t) (negotiateCounter t) (signalStateCheckTimer t) (onNegotiationFailed t) (previousAnswer t) (preferTCP t) v (pendingRestartIceOffer t).
Definition set_pendingRestartIceOffer (t : PCTransport) (v : option SessionDescription) : PCTransport :=
  Build_PCTransport (pc t) (pendingCandidates t) (debounced t) (negotiationPending t) (onOffer t) (onRemoteDescripitonSettled t) (restartAfterGathering t) (restartAtNextOffer t) (negotiationState t) (negotiateCounter t) (signalStateCheckTimer t) (onNegotiationFailed t) (previousAnswer t) (preferTCP t) (currentOfferIceCredential t) v.

(** [atomic.Int32.Inc]: 32-bit two's complement increment. *)
Definition int32Inc (z : Z) : Z := ((z + 1 + 2 ^ 31) mod 2 ^ 32) - 2 ^ 31.

(** [filterCandidates]; marshalling back a parsed description is taken to
    reproduce it. *)
Definition filterCandidates (t : PCTransport) (sd : SessionDescription) : SessionDescription :=
  match sdParsed sd with
  | None => sd
  | Some parsed =>
      {| sdType := sdType sd; sdText := sdText sd;
         sdParsed := Some (filterParsed (preferTCP t) parsed) |}
  end.

(** Lines 506-539 of [createAndSendOffer]: either return now ([inl]) or
    go on to create an offer ([inr]) with the state and calls so far. *)
Definition offerPrecheck (st : Stack) (iceRestart : bool) (t : PCTransport)
  : (result unit * PCTransport * list Event) + (PCTransport * list Event) :=
  if iceRestart && negb (isNegotiationStateNone (negotiationState t)) then
    match currentRemoteDescription (pc t) with
    | None =>
        (* restart without current remote description, send current local
           description again to try recover *)
        match localDescription (pc t) with
        | None => inl (Err ErrIceRestartWithoutLocalSDP, t, [])
        | Some offer =>
            inl (Ok tt,
                 set_restartAtNextOffer (set_negotiationState t negotiationRetry) true,
                 [OnOfferCalled offer])
        end
    | Some currentSD =>
        (* recover by re-applying the last answer *)
        match pcSetRemoteDescription st (pc t) currentSD with
        | None => inl (Err (ErrStack "SetRemoteDescription"), t,
                       [PcSetRemoteDescription currentSD false])
        | Some p => inr (set_pc t p, [PcSetRemoteDescription currentSD true])
        end
    end
  else
    match negotiationState t with
    | negotiationStateClient => inl (Ok tt, set_negotiationState t negotiationRetry, [])
    | negotiationRetry => inl (Ok tt, t, [])
    | negotiationStateNone => inr (t, [])
    end.

(** Lines 541-597: create the offer, set it locally, arm the timer. *)
Definition offerCreate (st : Stack) (options : option OfferOptions) (t : PCTransport)
  (evs : list Event) : result unit * PCTransport * list Event :=
  let '(options, t) :=
    match previousAnswer t with
    | Some _ => (Some {| ICERestart := true |}, set_previousAnswer t None)
    | None => (options, t)
    end in
  let '(options, t) :=
    if restartAtNextOffer t
    then (Some {| ICERestart := true |}, set_restartAtNextOffer t false)
    else (options, t) in
  let restart := match options with Some o => ICERestart o | None => false end in
  match createOffer st (pc t) restart with
  | None => (Err (ErrStack "CreateOffer"), t, evs)
  | Some offer =>
      let offer := filterCandidates t offer in
      match pcSetLocalDescription st (pc t) offer with
      | None => (Err (ErrStack "SetLocalDescription"), t,
                 app evs [PcSetLocalDescription offer false])
      | Some p =>
          let negotiateVersion := int32Inc (negotiateCounter t) in
          let t := set_pc t p in
          let t := set_negotiationState t negotiationStateClient in
          let t := set_restartAfterGathering t false in
          let t := set_negotiationPending t ∅ in
          let t := set_negotiateCounter t negotiateVersion in
          let t := set_signalStateCheckTimer t (Some negotiateVersion) in
          (Ok tt, t, app evs [PcSetLocalDescription offer true; OnOfferCalled offer])
      end
  end.

(** [createAndSendOffer] (lock held by the caller). *)
Definition createAndSendOffer (st : Stack) (options : option OfferOptions) (t : PCTransport)
  : result unit * PCTransport * list Event :=
  if negb (onOffer t) then (Ok tt, t, []) else
  if connectionClosed (pc t) then (Ok tt, t, []) else
  let iceRestart :=
    match options with Some o => ICERestart o | None => false end || restartAtNextOffer t in
  (* if restart is requested, and we are not ready, then continue afterwards *)
  if iceRestart && isGathering (iceGatheringState (pc t))
  then (Ok tt, set_restartAfterGathering t true, [])
  else
    match offerPrecheck st iceRestart t with
    | inl r => r
    | inr (t, evs) => offerCreate st options t evs
    end.

(** The failure-timer closure armed for epoch [negotiateVersion]. *)
Definition failureTimerFire (negotiateVersion : Z) (t : PCTransport) : list Event :=
  let failed := negb (isNegotiationStateNone (negotiationState t)) in
  if Z.eqb (negotiateCounter t) negotiateVersion && failed then
    if onNegotiationFailed t then [OnNegotiationFailedCalled] else []
  else [].

(** [isRemoteOfferRestartICE] *)
Definition isRemoteOfferRestartICE (t : PCTransport) (sd : SessionDescription)
  : result (string * bool) :=
  match sdParsed sd with
  | None => Err ErrUnmarshal
  | Some parsed =>
      match extractICECredential parsed with
      | Err e => Err e
      | Ok (user, pwd) =>
          let credential := user ++ ":" ++ pwd in
          let restartICE :=
            negb (String.eqb (currentOfferIceCredential t) "") &&
            negb (String.eqb (currentOfferIceCredential t) credential) in
          Ok (credential, restartICE)
      end
  end.

(** The loop of [SetRemoteDescription] over [pendingCandidates]. *)
Fixpoint addPendingCandidates (st : Stack) (p : PeerConnection) (cs : list ICECandidateInit)
  : option error * list Event :=
  match cs with
  | [] => (None, [])
  | c :: rest =>
      if addICECandidateOk st p c then
        let '(r, evs) := addPendingCandidates st p rest in
        (r, PcAddICECandidate c true :: evs)
      else (Some (ErrStack "AddICECandidate"), [PcAddICECandidate c false])
  end.

(** [SetRemoteDescription] *)
Definition SetRemoteDescription (st : Stack) (sd : SessionDescription) (t : PCTransport)
  : result unit * PCTransport * list Event :=
  let check :=
    match sdType sd with
    | SDPTypeOffer => isRemoteOfferRestartICE t sd
    | SDPTypeAnswer => Ok ("", false)
    end in
  match check with
  | Err e => (Err e, t, [])
  | Ok (iceCredential, offerRestartICE) =>
      if offerRestartICE && isGathering (iceGatheringState (pc t)) then
        (Ok tt, set_pendingRestartIceOffer t (Some sd), [])
      else
        match pcSetRemoteDescription st (pc t) sd with
        | None => (Err (ErrStack "SetRemoteDescription"), t, [PcSetRemoteDescription sd false])
        | Some p =>
            let t := set_pc t p in
            let t :=
              if String.eqb (currentOfferIceCredential t) "" || offerRestartICE
              then set_currentOfferIceCredential t iceCredential else t in
            (* negotiated, reset flag *)
            let lastState := negotiationState t in
            let t := set_negotiationState t negotiationStateNone in
            let t := set_signalStateCheckTimer t None in
            match addPendingCandidates st (pc t) (pendingCandidates t) with
            | (Some e, evc) => (Err e, t, PcSetRemoteDescription sd true :: evc)
            | (None, evc) =>
                let t := set_pendingCandidates t [] in
                (* only initiate when we are the offerer *)
                let '(t, evo) :=
                  match lastState, sdType sd with
                  | negotiationRetry, SDPTypeAnswer =>
                      let '(_, t, evo) := createAndSendOffer st None t in (t, evo)
                  | _, _ => (t, [])
                  end in
                let evs := PcSetRemoteDescription sd true :: app evc evo in
                match onRemoteDescripitonSettled t with
                | None => (Ok tt, t, evs)
                | Some r =>
                    (match r with None => Ok tt | Some e => Err e end, t,
                     app evs [OnRemoteDescripitonSettledCalled])
                end
            end
        end
  end.

(** [AddICECandidate] *)
Definition AddICECandidate (st : Stack) (c : ICECandidateInit) (t : PCTransport)
  : result unit * PCTransport * list Event :=
  match RemoteDescription (pc t) with
  | None => (Ok tt, set_pendingCandidates t (app (pendingCandidates t) [c]), [])
  | Some _ =>
      if addICECandidateOk st (pc t) c
      then (Ok tt, t, [PcAddICECandidate c true])
      else (Err (ErrStack "AddICECandidate"), t, [PcAddICECandidate c false])
  end.

(** [Negotiate]: a forced call replaces the debounced function by a no-op
    and offers now; otherwise the offer is left to the debouncer. *)
Definition Negotiate (st : Stack) (force : bool) (t : PCTransport) : PCTransport * list Event :=
  if force then
    let t := set_debounced t (Some DebouncedNoop) in
    let '(_, t, evs) := createAndSendOffer st None t in (t, evs)
  else (set_debounced t (Some DebouncedCreateAndSendOffer), []).

(** The debouncer's timer firing. *)
Definition debounceFire (st : Stack) (t : PCTransport) : PCTransport * list Event :=
  match debounced t with
  | Some DebouncedCreateAndSendOffer =>
      let '(_, t, evs) := createAndSendOffer st None (set_debounced t None) in (t, evs)
  | Some DebouncedNoop => (set_debounced t None, [])
  | None => (t, [])
  end.

(** The [OnICEGatheringStateChange] handler installed by
    [createPeerConnection], run when gathering reaches Complete. *)
Definition onGatheringComplete (st : Stack) (t : PCTransport) : PCTransport * list Event :=
  let t := set_pc t (pcSetGathering (pc t) ICEGatheringStateComplete) in
  if restartAfterGathering t then
    let '(_, t, evs) := createAndSendOffer st (Some {| ICERestart := true |}) t in (t, evs)
  else
    match pendingRestartIceOffer t with
    | Some offer =>
        let t := set_pendingRestartIceOffer t None in
        let '(_, t, evs) := SetRemoteDescription st offer t in (t, evs)
    | None => (t, [])
    end.

(** What can happen to one transport. *)
Inductive Op :=
  | OpNegotiate (force : bool)
  | OpDebounceFire
  | OpCreateAndSendOffer (options : option OfferOptions)
  | OpSetRemoteDescription (sd : SessionDescription)
  | OpAddICECandidate (c : ICECandidateInit)
  | OpGatheringStart
  | OpGatheringComplete
  | OpFailureTimerFire (negotiateVersion : Z).

Definition step (st : Stack) (op : Op) (t : PCTransport) : PCTransport * list Event :=
  match op with
  | OpNegotiate force => Negotiate st force t
  | OpDebounceFire => debounceFire st t
  | OpCreateAndSendOffer options => let '(_, t, evs) := createAndSendOffer st options t in (t, evs)
  | OpSetRemoteDescription sd => let '(_, t, evs) := SetRemoteDescription st sd t in (t, evs)
  | OpAddICECandidate c => let '(_, t, evs) := AddICECandidate st c t in (t, evs)
  | OpGatheringStart => (set_pc t (pcSetGathering (pc t) ICEGatheringStateGathering), [])
  | OpGatheringComplete => onGatheringComplete st t
  | OpFailureTimerFire n => (t, failureTimerFire n t)
  end.

Fixpoint run (st : Stack) (ops : list Op) (t : PCTransport) : PCTransport * list Event :=
  match ops with
  | [] => (t, [])
  | op :: rest =>
      let '(t, evs) := step st op t in
      let '(t, evs') := run st rest t in
      (t, app evs evs')
  end.

(* ------------------------------------------------------------------ *)
(** ** DynacastQuality *)

(** [livekit.VideoQuality]; the protobuf numbering is LOW = 0, MEDIUM = 1,
    HIGH = 2, OFF = 3, and Go compares the numbers. *)
Inductive VideoQuality :=
  | VideoQuality_LOW | VideoQuality_MEDIUM | VideoQuality_HIGH | VideoQuality_OFF.

Definition VideoQuality_value (q : VideoQuality) : Z :=
  match q with
  | VideoQuality_LOW => 0 | VideoQuality_MEDIUM => 1
  | VideoQuality_HIGH => 2 | VideoQuality_OFF => 3
  end.

Definition VideoQuality_eqb (a b : VideoQuality) : bool :=
  Z.eqb (VideoQuality_value a) (VideoQuality_value b).

Definition isOff (q : VideoQuality) : bool := VideoQuality_eqb q VideoQuality_OFF.

Record DynacastQuality := {
  initialized : bool;
  maxSubscriberQuality : gmap string VideoQuality;
  maxSubscriberNodeQuality : gmap string VideoQuality;
  maxSubscribedQuality : VideoQuality;
  maxQualityTimer : bool;
  onSubscribedMaxQualityChange : bool
}.

Definition mkDQ (init : bool) (subs nodes : gmap string VideoQuality) (q : VideoQuality)
  (d : DynacastQuality) : DynacastQuality :=
  {| initialized := init; maxSubscriberQuality := subs; maxSubscriberNodeQuality := nodes;
     maxSubscribedQuality := q; maxQualityTimer := maxQualityTimer d;
     onSubscribedMaxQualityChange := onSubscribedMaxQualityChange d |}.

(** One of the two loops of [updateQualityChange], over the values of a
    map in its iteration order. *)
Definition qualityLoop (acc : VideoQuality) (qs : list VideoQuality) : VideoQuality :=
  fold_left (fun m q =>
               if isOff m || (negb (isOff q) && Z.gtb (VideoQuality_value q) (VideoQuality_value m))
               then q else m) qs acc.

Definition mapValues (m : gmap string VideoQuality) : list VideoQuality :=
  map snd (map_to_list m).

(** [updateQualityChange]; returns the values passed to the callback. *)
Definition recomputeQuality (d : DynacastQuality) : VideoQuality :=
  let q := qualityLoop VideoQuality_OFF (mapValues (maxSubscriberQuality d)) in
  qualityLoop q (mapValues (maxSubscriberNodeQuality d)).

Definition updateQualityChange (d : DynacastQuality) : DynacastQuality * list VideoQuality :=
  let q := recomputeQuality d in
  if VideoQuality_eqb q (maxSubscribedQuality d) && initialized d then (d, [])
  else
    let d := mkDQ true (maxSubscriberQuality d) (maxSubscriberNodeQuality d) q d in
    (d, if onSubscribedMaxQualityChange d then [q] else []).

Definition NotifySubscriberMaxQuality (subscriberID : string) (quality : VideoQuality)
  (d : DynacastQuality) : DynacastQuality * list VideoQuality :=
  let subs :=
    if isOff quality then delete subscriberID (maxSubscriberQuality d)
    else <[subscriberID := quality]> (maxSubscriberQuality d) in
  updateQualityChange
    (mkDQ (initialized d) subs (maxSubscriberNodeQuality d) (maxSubscribedQuality d) d).

Definition NotifySubscriberNodeMaxQuality (nodeID : string) (quality : VideoQuality)
  (d : DynacastQuality) : DynacastQuality * list VideoQuality :=
  let nodes :=
    if isOff quality then delete nodeID (maxSubscriberNodeQuality d)
    else <[nodeID := quality]> (maxSubscriberNodeQuality d) in
  updateQualityChange
    (mkDQ (initialized d) (maxSubscriberQuality d) nodes (maxSubscribedQuality d) d).

Inductive QualityOp :=
  | NotifySubscriber (subscriberID : string) (quality : VideoQuality)
  | NotifySubscriberNode (nodeID : string) (quality : VideoQuality).

Definition qualityStep (op : QualityOp) (d : DynacastQuality) : DynacastQuality * list VideoQuality :=
  match op with
  | NotifySubscriber id q => NotifySubscriberMaxQuality id q d
  | NotifySubscriberNode id q => NotifySubscriberNodeMaxQuality id q d
  end.

Fixpoint qualityRun (ops : list QualityOp) (d : DynacastQuality) : DynacastQuality * list VideoQuality :=
  match ops with
  | [] => (d, [])
  | op :: rest =>
      let '(d, cb) := qualityStep op d in
      let '(d, cb') := qualityRun rest d in
      (d, app cb cb')
  end.

(** The spec's order on qualities: OFF < LOW < MEDIUM < HIGH. *)
Definition qualityRank (q : VideoQuality) : nat :=
  match q with
  | VideoQuality_OFF => 0 | VideoQuality_LOW => 1
  | VideoQuality_MEDIUM => 2 | VideoQuality_HIGH => 3
  end.

(** The spec's aggregate: OFF when both maps are empty, else a stored value
    that is at least every stored value. *)
Definition isMaxAggregate (q : VideoQuality) (subs nodes : gmap string VideoQuality) : Prop :=
  (subs = ∅ /\ nodes = ∅ /\ q = VideoQuality_OFF) \/
  ((exists k, subs !! k = Some q \/ nodes !! k = Some q) /\
   forall k v, subs !! k = Some v \/ nodes !! k = Some v -> qualityRank v <= qualityRank q).

Definition noOff (m : gmap string VideoQuality) : Prop :=
  forall k v, m !! k = Some v -> v <> VideoQuality_OFF.

(* ------------------------------------------------------------------ *)
(** ** DTLS role, transport lifecycle and the aggregator's timer *)

(** [sdp.AttrKeyConnectionSetup] and the strings of [sdp.ConnectionRoleActive]
    and [sdp.ConnectionRolePassive]. *)
Definition AttrKeyConnectionSetup := "setup".
Definition ConnectionRoleActive := "active".
Definition ConnectionRolePassive := "passive".

(** [webrtc.DTLSRole] (the two values [extractDTLSRole] returns). *)
Inductive DTLSRole := DTLSRoleClient | DTLSRoleServer.

(** The loop of [extractDTLSRole] over the media descriptions. *)
Fixpoint extractDTLSRoleLoop (mds : list sdp.MediaDescription) : DTLSRole :=
  match mds with
  | [] => DTLSRoleClient
  | md :: rest =>
      match sdp.attribute AttrKeyConnectionSetup (sdp.MediaAttributes md) with
      | None => extractDTLSRoleLoop rest
      | Some setup =>
          if String.eqb setup ConnectionRoleActive then DTLSRoleClient
          else if String.eqb setup ConnectionRolePassive then DTLSRoleServer
          else extractDTLSRoleLoop rest
      end
  end.

Definition extractDTLSRole (desc : sdp.SessionDescription) : DTLSRole :=
  extractDTLSRoleLoop (sdp.MediaDescriptions desc).

(** A media description whose setup attribute (if any) is neither active
    nor passive: the loop goes past it. *)
Definition setupUndecided (md : sdp.MediaDescription) : Prop :=
  match sdp.attribute AttrKeyConnectionSetup (sdp.MediaAttributes md) with
  | Some s => s <> ConnectionRoleActive /\ s <> ConnectionRolePassive
  | None => True
  end.

(** [AddNegotiationPending] and [IsNegotiationPending]: the map of
    publishers to [true] is the set of its keys. *)
Definition AddNegotiationPending (publisherID : string) (t : PCTransport) : PCTransport :=
  set_negotiationPending t ({[publisherID]} ∪ negotiationPending t).

Definition IsNegotiationPending (publisherID : string) (t : PCTransport) : bool :=
  bool_decide (publisherID ∈ negotiationPending t).

(** [pc.Close()]: the connection state becomes closed. *)
Definition pcClose (p : PeerConnection) : PeerConnection :=
  {| signalingState := signalingState p;
     localDescription := localDescription p;
     currentRemoteDescription := currentRemoteDescription p;
     pendingRemoteDescription := pendingRemoteDescription p;
     iceGatheringState := iceGatheringState p;
     connectionClosed := true |}.

(** [Close]: stop the failure timer, then close the peer-connection (the
    stream allocator is not modelled). *)
Definition Close (t : PCTransport) : PCTransport :=
  let t := set_signalStateCheckTimer t None in
  set_pc t (pcClose (pc t)).

(** [SetPreviousAnswer]; [initPC] is the peer-connection as
    [initPCWithPreviousAnswer] leaves it (its error is only logged). *)
Definition SetPreviousAnswer (initPC : PeerConnection -> SessionDescription -> PeerConnection)
  (answer : SessionDescription) (t : PCTransport) : PCTransport :=
  match RemoteDescription (pc t), previousAnswer t with
  | None, None =>
      let t := set_previousAnswer t (Some answer) in
      set_pc t (initPC (pc t) answer)
  | _, _ => t
  end.

(** The events by which an offer leaves the transport. *)
Definition isOfferEvent (e : Event) : bool :=
  match e with OnOfferCalled _ | PcSetLocalDescription _ _ => true | _ => false end.

(** [startMaxQualityTimer]: a timer already armed is stopped, and a new
    one is armed ([maxQualityTimer] records whether one is armed). *)
Definition startMaxQualityTimer (d : DynacastQuality) : DynacastQuality :=
  {| initialized := initialized d; maxSubscriberQuality := maxSubscriberQuality d;
     maxSubscriberNodeQuality := maxSubscriberNodeQuality d;
     maxSubscribedQuality := maxSubscribedQuality d; maxQualityTimer := true;
     onSubscribedMaxQualityChange := onSubscribedMaxQualityChange d |}.

(** [stopMaxQualityTimer] *)
Definition stopMaxQualityTimer (d : DynacastQuality) : DynacastQuality :=
  {| initialized := initialized d; maxSubscriberQuality := maxSubscriberQuality d;
     maxSubscriberNodeQuality := maxSubscriberNodeQuality d;
     maxSubscribedQuality := maxSubscribedQuality d; maxQualityTimer := false;
     onSubscribedMaxQualityChange := onSubscribedMaxQualityChange d |}.

(** [reset] *)
Definition reset (d : DynacastQuality) : DynacastQuality :=
  startMaxQualityTimer
    (mkDQ false (maxSubscriberQuality d) (maxSubscriberNodeQuality d) VideoQuality_HIGH d).

Definition Start (d : DynacastQuality) : DynacastQuality := reset d.
Definition Restart (d : DynacastQuality) : DynacastQuality := reset d.
Definition Stop (d : DynacastQuality) : DynacastQuality := stopMaxQualityTimer d.

(** [OnSubscribedMaxQualityChange]: the callback is registered or not. *)
Definition OnSubscribedMaxQualityChange (registered : bool) (d : DynacastQuality) : DynacastQuality :=
  {| initialized := initialized d; maxSubscriberQuality := maxSubscriberQuality d;
     maxSubscriberNodeQuality := maxSubscriberNodeQuality d;
     maxSubscribedQuality := maxSubscribedQuality d; maxQualityTimer := maxQualityTimer d;
     onSubscribedMaxQualityChange := registered |}.

(** The armed [time.AfterFunc] firing after [initialQualityUpdateWait]:
    the closure stops the timer, then recomputes; a stopped timer does
    not fire. *)
Definition maxQualityTimerFire (d : DynacastQuality) : DynacastQuality * list VideoQuality :=
  if maxQualityTimer d then updateQualityChange (stopMaxQualityTimer d) else (d, []).

(** The key a report is about: the subscriber map ([true]) or the node
    map ([false]), and the key in it. *)
Definition qualityOpKey (op : QualityOp) : bool * string :=
  match op with
  | NotifySubscriber id _ => (true, id)
  | NotifySubscriberNode id _ => (false, id)
  end.

(* ================================================================== *)
(** * Properties *)

Lemma VideoQuality_eqb_spec (a b : VideoQuality) : VideoQuality_eqb a b = true <-> a = b.
Proof. destruct a, b; cbn; split; congruence. Qed.

Lemma isOff_spec (q : VideoQuality) : isOff q = true <-> q = VideoQuality_OFF.
Proof. apply VideoQuality_eqb_spec. Qed.

(* ------------------------------------------------------------------ *)
(** ** SDP helpers *)

Example splitSpace_fingerprint : splitSpace "sha-256 AB:CD" = ["sha-256"; "AB:CD"].
Proof. reflexivity. Qed.

Example splitSpace_double : splitSpace "a  b" = ["a"; ""; "b"].
Proof. reflexivity. Qed.

(** C9 (amended): [extractFingerprint] fails with NoFingerprint when no
    level carries a fingerprint, with ConflictingFingerprints when the
    collected values differ, with InvalidFingerprint when the common value
    does not split on single spaces into exactly two parts, and otherwise
    returns the pair (hash, algorithm): the second part, then the first. *)
Theorem extractFingerprint_result (desc : sdp.SessionDescription) :
  (collectFingerprints desc = [] ->
   extractFingerprint desc = Err ErrSessionDescriptionNoFingerprint) /\
  (forall f rest, collectFingerprints desc = f :: rest ->
   (exists g, In g rest /\ g <> f) ->
   extractFingerprint desc = Err ErrSessionDescriptionConflictingFingerprints) /\
  (forall f rest, collectFingerprints desc = f :: rest -> Forall (fun g => g = f) rest ->
   (forall algorithm hash, splitSpace f = [algorithm; hash] ->
      extractFingerprint desc = Ok (hash, algorithm)) /\
   (length (splitSpace f) <> 2 ->
      extractFingerprint desc = Err ErrSessionDescriptionInvalidFingerprint)).
Proof.
  unfold extractFingerprint. split; [|split].
  - intros ->. reflexivity.
  - intros f rest -> [g [Hin Hne]]. cbn.
    rewrite String.eqb_refl. cbn.
    replace (existsb (fun m => negb (m =? f)) rest) with true; [reflexivity|].
    symmetry. apply existsb_exists. exists g. split; [exact Hin|].
    apply negb_true_iff, String.eqb_neq. exact Hne.
  - intros f rest -> Hall. cbn. rewrite String.eqb_refl. cbn.
    replace (existsb (fun m => negb (m =? f)) rest) with false.
    2:{ symmetry. apply not_true_iff_false. intros Hex.
        apply existsb_exists in Hex as [g [Hin Hg]].
        rewrite List.Forall_forall in Hall. rewrite (Hall g Hin), String.eqb_refl in Hg.
        discriminate. }
    split.
    + intros a h ->. reflexivity.
    + intros Hlen. destruct (splitSpace f) as [|x [|y [|z l]]]; cbn in *;
        [reflexivity | reflexivity | lia | reflexivity].
Qed.

Definition fingerprintOnlySDP : sdp.SessionDescription :=
  {| sdp.Attributes := [{| sdp.Key := "fingerprint"; sdp.Value := "sha-256 AB:CD" |}];
     sdp.MediaDescriptions := [] |}.

(** C9 counterexample: the pair comes back as (hash, algorithm), not as
    (algorithm, hash). *)
Lemma extractFingerprint_order_counterexample :
  extractFingerprint fingerprintOnlySDP = Ok ("AB:CD", "sha-256") /\
  extractFingerprint fingerprintOnlySDP <> Ok ("sha-256", "AB:CD").
Proof. split; [reflexivity | discriminate]. Qed.

Definition keptWhenPreferTCP (a : sdp.Attribute) : bool :=
  negb (String.eqb (sdp.Key a) sdp.AttrKeyCandidate) || contains (sdp.Value a) "tcp".

Definition isCandidateAttr (a : sdp.Attribute) : bool :=
  String.eqb (sdp.Key a) sdp.AttrKeyCandidate.

Lemma filterAttributes_false (attrs : list sdp.Attribute) : filterAttributes false attrs = attrs.
Proof.
  induction attrs as [|a attrs IH]; [reflexivity|].
  unfold filterAttributes in *. cbn. destruct (_ =? _); rewrite IH; reflexivity.
Qed.

Lemma filterAttributes_true (attrs : list sdp.Attribute) :
  filterAttributes true attrs = List.filter keptWhenPreferTCP attrs.
Proof.
  induction attrs as [|a attrs IH]; [reflexivity|].
  unfold filterAttributes, keptWhenPreferTCP in *. cbn.
  destruct (_ =? _); cbn; rewrite IH; reflexivity.
Qed.

Lemma filterAttributes_true_props (attrs : list sdp.Attribute) :
  (forall a, In a (filterAttributes true attrs) <->
             In a attrs /\ (isCandidateAttr a = false \/ contains (sdp.Value a) "tcp" = true)) /\
  List.filter (fun a => negb (isCandidateAttr a)) (filterAttributes true attrs) =
  List.filter (fun a => negb (isCandidateAttr a)) attrs.
Proof.
  rewrite filterAttributes_true. split.
  - intros a. rewrite filter_In. unfold keptWhenPreferTCP, isCandidateAttr.
    destruct (_ =? _), (contains _ _); cbn; intuition congruence.
  - induction attrs as [|a attrs IH]; [reflexivity|].
    cbn. unfold keptWhenPreferTCP, isCandidateAttr in *.
    destruct (_ =? _) eqn:E; cbn.
    + destruct (contains _ _); cbn; rewrite ?E; cbn; exact IH.
    + rewrite E. cbn. f_equal. exact IH.
Qed.

(** C10 (amended): with preferTCP false, filtering leaves the parsed SDP
    unchanged; with preferTCP true, at the session level and at every media
    level (media kept in order), an attribute is kept iff it is not a
    candidate or its value contains the substring "tcp", and the
    non-candidate attributes are kept verbatim and in order. *)
Theorem filterCandidates_spec (parsed : sdp.SessionDescription) :
  filterParsed false parsed = parsed /\
  let out := filterParsed true parsed in
  (forall a, In a (sdp.Attributes out) <->
             In a (sdp.Attributes parsed) /\
             (isCandidateAttr a = false \/ contains (sdp.Value a) "tcp" = true)) /\
  List.filter (fun a => negb (isCandidateAttr a)) (sdp.Attributes out) =
  List.filter (fun a => negb (isCandidateAttr a)) (sdp.Attributes parsed) /\
  map sdp.Media (sdp.MediaDescriptions out) = map sdp.Media (sdp.MediaDescriptions parsed) /\
  Forall2 (fun mo mi =>
             (forall a, In a (sdp.MediaAttributes mo) <->
                        In a (sdp.MediaAttributes mi) /\
                        (isCandidateAttr a = false \/ contains (sdp.Value a) "tcp" = true)) /\
             List.filter (fun a => negb (isCandidateAttr a)) (sdp.MediaAttributes mo) =
             List.filter (fun a => negb (isCandidateAttr a)) (sdp.MediaAttributes mi))
          (sdp.MediaDescriptions out) (sdp.MediaDescriptions parsed).
Proof.
  destruct parsed as [attrs media]. split.
  - unfold filterParsed. cbn [sdp.Attributes sdp.MediaDescriptions].
    rewrite filterAttributes_false. f_equal.
    induction media as [|[k ma] media IH]; [reflexivity|].
    cbn [map sdp.Media sdp.MediaAttributes]. rewrite filterAttributes_false, IH. reflexivity.
  - unfold filterParsed. cbn [sdp.Attributes sdp.MediaDescriptions].
    destruct (filterAttributes_true_props attrs) as [H1 H2].
    split; [exact H1|]. split; [exact H2|]. split.
    + rewrite map_map. reflexivity.
    + induction media as [|m media IH]; constructor; [|exact IH].
      cbn [sdp.MediaAttributes]. apply filterAttributes_true_props.
Qed.

Definition udpCandidateNamedTcp : sdp.Attribute :=
  {| sdp.Key := "candidate";
     sdp.Value := "1 1 udp 2130706431 tcp.example.org 9 typ host" |}.

(** C10 counterexample: a UDP candidate whose host name contains "tcp" is
    kept when TCP is preferred. *)
Lemma filterCandidates_udp_kept_counterexample :
  candidateTransportIsTCP (sdp.Value udpCandidateNamedTcp) = false /\
  In udpCandidateNamedTcp
     (sdp.Attributes (filterParsed true {| sdp.Attributes := [udpCandidateNamedTcp];
                                           sdp.MediaDescriptions := [] |})).
Proof. split; [reflexivity | cbn; left; reflexivity]. Qed.

(* ------------------------------------------------------------------ *)
(** ** The offer algorithm *)

Definition iceRestartRequested (options : option OfferOptions) (t : PCTransport) : bool :=
  match options with Some o => ICERestart o | None => false end || restartAtNextOffer t.

Lemma offerCreate_not_sentinel (st : Stack) (options : option OfferOptions) (t : PCTransport)
  (evs : list Event) :
  fst (fst (offerCreate st options t evs)) <> Err ErrIceRestartWithoutLocalSDP.
Proof.
  unfold offerCreate.
  destruct (previousAnswer t); destruct (restartAtNextOffer _);
  repeat match goal with
         | |- context [match ?x with _ => _ end] => destruct x
         end; cbn; discriminate.
Qed.

Ltac contra_case :=
  split; [split; [congruence | intros ?H; decompose [and] H; congruence]
         | intros; congruence].

(** C6 (amended): [createAndSendOffer] returns IceRestartWithoutLocalSDP
    exactly when an onOffer callback is registered, the peer-connection is
    not closed, an ICE restart is requested (by the options or by
    restartAtNextOffer), gathering is not in progress, the negotiation state
    is not Idle and there is neither a current remote description nor a
    local description; under the same conditions with a local description,
    that description is sent again through onOffer, the state becomes
    RetryQueued, restartAtNextOffer is set and success is returned. *)
Theorem createAndSendOffer_restart_without_remote (st : Stack)
  (options : option OfferOptions) (t : PCTransport) :
  let '(r, t', evs) := createAndSendOffer st options t in
  (r = Err ErrIceRestartWithoutLocalSDP <->
     onOffer t = true /\ connectionClosed (pc t) = false /\
     iceRestartRequested options t = true /\
     isGathering (iceGatheringState (pc t)) = false /\
     negotiationState t <> negotiationStateNone /\
     currentRemoteDescription (pc t) = None /\ localDescription (pc t) = None) /\
  (forall offer,
     onOffer t = true -> connectionClosed (pc t) = false ->
     iceRestartRequested options t = true ->
     isGathering (iceGatheringState (pc t)) = false ->
     negotiationState t <> negotiationStateNone ->
     currentRemoteDescription (pc t) = None -> localDescription (pc t) = Some offer ->
     r = Ok tt /\ evs = [OnOfferCalled offer] /\
     negotiationState t' = negotiationRetry /\ restartAtNextOffer t' = true).
Proof.
  unfold createAndSendOffer. fold (iceRestartRequested options t).
  destruct (onOffer t) eqn:Hon; cbn [negb]; [|contra_case].
  destruct (connectionClosed (pc t)) eqn:Hcl; [contra_case|].
  destruct (iceRestartRequested options t) eqn:Hr;
    destruct (isGathering (iceGatheringState (pc t))) eqn:Hg; cbn [andb];
    try contra_case.
  all: unfold offerPrecheck; cbn [andb].
  all: destruct (negotiationState t) eqn:Hs; cbn [isNegotiationStateNone negb andb].
  all: try (pose proof (offerCreate_not_sentinel st options t []) as Hn;
            destruct (offerCreate st options t []) as [[r t'] evs]; cbn in Hn;
            contra_case; fail).
  all: try contra_case.
  all: destruct (currentRemoteDescription (pc t)) as [cur|] eqn:Hc;
       [destruct (pcSetRemoteDescription st (pc t) cur) as [p|];
        [pose proof (offerCreate_not_sentinel st options (set_pc t p)
                       [PcSetRemoteDescription cur true]) as Hn;
         destruct (offerCreate _ _ _ _) as [[r t'] evs]; cbn in Hn; contra_case
        | contra_case]
       | destruct (localDescription (pc t)) as [l|] eqn:Hl].
  all: try (split; [split; [discriminate | intros ?H; decompose [and] H; congruence] |];
            intros offer _ _ _ _ _ _ Heq; injection Heq as <-; cbn; auto; fail).
  all: split; [split; [intros _; repeat split; congruence | reflexivity] | intros; congruence].
Qed.

(* ------------------------------------------------------------------ *)
(** ** Concrete transports for the examples *)

Definition emptyPC : PeerConnection :=
  {| signalingState := SignalingStateStable; localDescription := None;
     currentRemoteDescription := None; pendingRemoteDescription := None;
     iceGatheringState := ICEGatheringStateNew; connectionClosed := false |}.

(** A transport just created, with its callbacks registered. *)
Definition freshTransport : PCTransport :=
  Build_PCTransport emptyPC [] None ∅ true None false false negotiationStateNone 0 None true
                    None false "" None.

Definition offerNo (n : nat) : SessionDescription :=
  {| sdType := SDPTypeOffer; sdText := n; sdParsed := None |}.

(** A stack that accepts every call the signaling state allows. *)
Definition permissiveStack : Stack :=
  {| createOffer := fun _ _ => Some (offerNo 100);
     setLocalDescriptionOk := fun _ _ => true;
     setRemoteDescriptionOk := fun _ _ => true;
     addICECandidateOk := fun _ _ => true |}.

Definition gatheringAwaitingTransport : PCTransport :=
  set_negotiationState
    (set_pc freshTransport (pcSetGathering emptyPC ICEGatheringStateGathering))
    negotiationStateClient.

(** C6 counterexample: an ICE restart requested while AwaitingAnswer with
    neither remote nor local description, but during gathering: no
    sentinel error, the restart is postponed to the gathering hook. *)
Lemma createAndSendOffer_gathering_counterexample :
  createAndSendOffer permissiveStack (Some {| ICERestart := true |}) gatheringAwaitingTransport =
  (Ok tt, set_restartAfterGathering gatheringAwaitingTransport true, []).
Proof. reflexivity. Qed.

(* ------------------------------------------------------------------ *)
(** ** DynacastQuality: recompute and notification *)

Definition qualityChanged (d : DynacastQuality) : Prop :=
  recomputeQuality d <> maxSubscribedQuality d \/ initialized d = false.

(** C8 (amended): a recompute calls onSubscribedMaxQualityChange, once and
    with the recomputed aggregate, iff the aggregate differs from the
    stored one or [initialized] is false, and a callback is registered;
    in that first case [initialized] becomes true and the aggregate is
    stored whether or not a callback is registered; otherwise nothing
    changes. *)
Theorem updateQualityChange_notifies (d : DynacastQuality) :
  let '(d', calls) := updateQualityChange d in
  (calls <> [] <-> qualityChanged d /\ onSubscribedMaxQualityChange d = true) /\
  (calls = [] \/ calls = [recomputeQuality d]) /\
  (qualityChanged d ->
     initialized d' = true /\ maxSubscribedQuality d' = recomputeQuality d) /\
  (~ qualityChanged d -> d' = d /\ calls = []).
Proof.
  unfold updateQualityChange, qualityChanged.
  destruct (VideoQuality_eqb (recomputeQuality d) (maxSubscribedQuality d)) eqn:Heq;
  destruct (initialized d) eqn:Hi; cbn [andb];
  apply VideoQuality_eqb_spec in Heq || apply not_true_iff_false in Heq;
  try rewrite VideoQuality_eqb_spec in Heq.
  - split; [split; [congruence | intros [[H|H] _]; congruence] |].
    split; [left; reflexivity|]. split; [intros [H|H]; congruence | auto].
  - cbn. destruct (onSubscribedMaxQualityChange d); cbn.
    + split; [split; [auto | discriminate] |]. split; [right; reflexivity|].
      split; [auto | intros H; exfalso; apply H; right; reflexivity].
    + split; [split; [congruence | intros [_ H]; discriminate] |]. split; [left; reflexivity|].
      split; [auto | intros H; exfalso; apply H; right; reflexivity].
  - cbn. destruct (onSubscribedMaxQualityChange d); cbn.
    + split; [split; [auto | discriminate] |]. split; [right; reflexivity|].
      split; [auto | intros H; exfalso; apply H; left; exact Heq].
    + split; [split; [congruence | intros [_ H]; discriminate] |]. split; [left; reflexivity|].
      split; [auto | intros H; exfalso; apply H; left; exact Heq].
  - cbn. destruct (onSubscribedMaxQualityChange d); cbn.
    + split; [split; [auto | discriminate] |]. split; [right; reflexivity|].
      split; [auto | intros H; exfalso; apply H; left; exact Heq].
    + split; [split; [congruence | intros [_ H]; discriminate] |]. split; [left; reflexivity|].
      split; [auto | intros H; exfalso; apply H; left; exact Heq].
Qed.

(** C8 counterexample: not yet initialized, no callback registered: the
    recompute stores the aggregate and sets [initialized] but calls
    nothing. *)
Lemma updateQualityChange_unregistered_counterexample :
  let d := {| initialized := false; maxSubscriberQuality := ∅; maxSubscriberNodeQuality := ∅;
              maxSubscribedQuality := VideoQuality_HIGH; maxQualityTimer := true;
              onSubscribedMaxQualityChange := false |} in
  initialized d = false /\ snd (updateQualityChange d) = [] /\
  initialized (fst (updateQualityChange d)) = true.
Proof. cbn. auto. Qed.

(** The aggregator as [NewDynacastQuality] leaves it (Go zero values),
    with the remaining fields chosen freely. *)
Definition emptyDynacastQuality (init : bool) (q : VideoQuality) (timer cb : bool)
  : DynacastQuality :=
  {| initialized := init; maxSubscriberQuality := ∅; maxSubscriberNodeQuality := ∅;
     maxSubscribedQuality := q; maxQualityTimer := timer; onSubscribedMaxQualityChange := cb |}.

Definition NewDynacastQuality : DynacastQuality :=
  emptyDynacastQuality false VideoQuality_LOW false false.

Lemma rank_gt (q m : VideoQuality) :
  q <> VideoQuality_OFF -> m <> VideoQuality_OFF ->
  Z.gtb (VideoQuality_value q) (VideoQuality_value m) = Nat.ltb (qualityRank m) (qualityRank q).
Proof. destruct q, m; cbn; congruence. Qed.

(** The loop keeps a maximum of the accumulator (unless OFF) and the
    values seen, when no value is OFF. *)
Lemma qualityLoop_max (acc : VideoQuality) (l : list VideoQuality) :
  List.Forall (fun v => v <> VideoQuality_OFF) l ->
  let S := if isOff acc then l else acc :: l in
  (S = [] -> qualityLoop acc l = VideoQuality_OFF) /\
  (S <> [] -> In (qualityLoop acc l) S /\
              forall v, In v S -> qualityRank v <= qualityRank (qualityLoop acc l)).
Proof.
  revert acc. induction l as [|q l IH]; intros acc Hl; cbn zeta.
  - destruct (isOff acc) eqn:Ho.
    + apply isOff_spec in Ho. subst. split; [reflexivity | congruence].
    + split; [discriminate|]. intros _. cbn.
      split; [left; reflexivity | intros v [<-|[]]; lia].
  - inversion Hl as [|? ? Hq Hl']; subst.
    unfold qualityLoop. cbn [fold_left]. fold (qualityLoop (if isOff acc || (negb (isOff q) &&
      Z.gtb (VideoQuality_value q) (VideoQuality_value acc)) then q else acc) l).
    assert (Hqo : isOff q = false) by (apply not_true_iff_false; rewrite isOff_spec; exact Hq).
    destruct (isOff acc) eqn:Ho; cbn [orb].
    + specialize (IH q Hl'). rewrite Hqo in IH. cbn zeta in IH.
      split; [discriminate|]. intros _. apply IH. discriminate.
    + rewrite Hqo. cbn [negb andb].
      assert (Hacc : acc <> VideoQuality_OFF) by (rewrite <- isOff_spec; congruence).
      rewrite (rank_gt q acc Hq Hacc).
      split; [discriminate|]. intros _.
      destruct (Nat.ltb (qualityRank acc) (qualityRank q)) eqn:Hlt.
      * apply Nat.ltb_lt in Hlt.
        specialize (IH q Hl'). rewrite Hqo in IH. cbn zeta in IH.
        destruct IH as [_ [Hin Hge]]; [discriminate|].
        split; [right; exact Hin|].
        intros v [<-|Hv]; [specialize (Hge q (or_introl eq_refl)); lia | apply Hge; exact Hv].
      * apply Nat.ltb_ge in Hlt.
        specialize (IH acc Hl'). rewrite Ho in IH. cbn zeta in IH.
        destruct IH as [_ [Hin Hge]]; [discriminate|].
        split; [destruct Hin as [<-|Hin]; [left; reflexivity | right; right; exact Hin]|].
        intros v [<-|[<-|Hv]].
        -- apply Hge. left. reflexivity.
        -- specialize (Hge acc (or_introl eq_refl)). lia.
        -- apply Hge. right. exact Hv.
Qed.

Lemma qualityLoop_from_off (l : list VideoQuality) :
  List.Forall (fun v => v <> VideoQuality_OFF) l ->
  (l = [] -> qualityLoop VideoQuality_OFF l = VideoQuality_OFF) /\
  (l <> [] -> In (qualityLoop VideoQuality_OFF l) l /\
              forall v, In v l -> qualityRank v <= qualityRank (qualityLoop VideoQuality_OFF l)).
Proof. exact (qualityLoop_max VideoQuality_OFF l). Qed.

Lemma in_mapValues (m : gmap string VideoQuality) (v : VideoQuality) :
  In v (mapValues m) <-> exists k, m !! k = Some v.
Proof.
  unfold mapValues. rewrite in_map_iff. split.
  - intros [[k v'] [<- Hin]]. exists k. cbn.
    apply elem_of_map_to_list. apply list_elem_of_In. exact Hin.
  - intros [k Hk]. exists (k, v). split; [reflexivity|].
    apply list_elem_of_In. apply elem_of_map_to_list. exact Hk.
Qed.

Lemma mapValues_nil (m : gmap string VideoQuality) : mapValues m = [] <-> m = ∅.
Proof.
  unfold mapValues. rewrite <- map_to_list_empty_iff.
  destruct (map_to_list m); cbn; split; congruence.
Qed.

Lemma mapValues_noOff (m : gmap string VideoQuality) :
  noOff m -> List.Forall (fun v => v <> VideoQuality_OFF) (mapValues m).
Proof.
  intros H. apply List.Forall_forall. intros v Hv.
  apply in_mapValues in Hv as [k Hk]. exact (H k v Hk).
Qed.

Lemma recomputeQuality_max (d : DynacastQuality) :
  noOff (maxSubscriberQuality d) -> noOff (maxSubscriberNodeQuality d) ->
  isMaxAggregate (recomputeQuality d) (maxSubscriberQuality d) (maxSubscriberNodeQuality d).
Proof.
  intros H1 H2. unfold recomputeQuality, qualityLoop. rewrite <- fold_left_app.
  fold (qualityLoop VideoQuality_OFF (mapValues (maxSubscriberQuality d) ++
                                      mapValues (maxSubscriberNodeQuality d))).
  destruct (qualityLoop_from_off
              (app (mapValues (maxSubscriberQuality d)) (mapValues (maxSubscriberNodeQuality d))))
    as [Hnil Hcons].
  { apply List.Forall_app. split; apply mapValues_noOff; assumption. }
  unfold isMaxAggregate.
  destruct (app (mapValues (maxSubscriberQuality d)) (mapValues (maxSubscriberNodeQuality d))) eqn:E.
  - left. apply app_eq_nil in E as [E1 E2].
    apply mapValues_nil in E1, E2. auto.
  - right. destruct Hcons as [Hin Hge]; [discriminate|].
    set (q := qualityLoop VideoQuality_OFF (v :: l)) in *.
    rewrite <- E in Hin, Hge.
    split.
    + apply in_app_or in Hin as [Hin|Hin]; apply in_mapValues in Hin as [k Hk];
        exists k; auto.
    + intros k w [Hv|Hv]; apply Hge; apply in_or_app;
        [left | right]; apply in_mapValues; exists k; exact Hv.
Qed.

Lemma updateQualityChange_state (d : DynacastQuality) :
  let d' := fst (updateQualityChange d) in
  maxSubscriberQuality d' = maxSubscriberQuality d /\
  maxSubscriberNodeQuality d' = maxSubscriberNodeQuality d /\
  maxSubscribedQuality d' = recomputeQuality d.
Proof.
  unfold updateQualityChange.
  destruct (VideoQuality_eqb (recomputeQuality d) (maxSubscribedQuality d)) eqn:Heq;
    destruct (initialized d); cbn; auto.
  apply VideoQuality_eqb_spec in Heq. auto.
Qed.

Lemma noOff_update (m : gmap string VideoQuality) (k : string) (q : VideoQuality) :
  noOff m -> noOff (if isOff q then delete k m else <[k := q]> m).
Proof.
  intros H k' v. destruct (isOff q) eqn:Hq.
  - rewrite lookup_delete_Some. intros [_ Hv]. exact (H k' v Hv).
  - rewrite lookup_insert_Some. intros [[<- <-]|[_ Hv]].
    + intros ->. discriminate.
    + exact (H k' v Hv).
Qed.

Lemma qualityStep_invariant (op : QualityOp) (d : DynacastQuality) :
  noOff (maxSubscriberQuality d) -> noOff (maxSubscriberNodeQuality d) ->
  let d' := fst (qualityStep op d) in
  noOff (maxSubscriberQuality d') /\ noOff (maxSubscriberNodeQuality d') /\
  isMaxAggregate (maxSubscribedQuality d') (maxSubscriberQuality d') (maxSubscriberNodeQuality d').
Proof.
  intros H1 H2. destruct op as [id q|id q]; cbn [qualityStep];
    unfold NotifySubscriberMaxQuality, NotifySubscriberNodeMaxQuality;
    match goal with
    | |- context [updateQualityChange ?d0] =>
        destruct (updateQualityChange_state d0) as (E1 & E2 & E3);
        assert (N1 : noOff (maxSubscriberQuality d0)) by (cbn; auto using noOff_update);
        assert (N2 : noOff (maxSubscriberNodeQuality d0)) by (cbn; auto using noOff_update);
        pose proof (recomputeQuality_max d0 N1 N2) as M
    end;
    cbv zeta; rewrite E1, E2, E3; auto.
Qed.

Lemma qualityRun_invariant (ops : list QualityOp) (d : DynacastQuality) :
  noOff (maxSubscriberQuality d) -> noOff (maxSubscriberNodeQuality d) ->
  let d' := fst (qualityRun ops d) in
  noOff (maxSubscriberQuality d') /\ noOff (maxSubscriberNodeQuality d') /\
  (ops <> [] ->
   isMaxAggregate (maxSubscribedQuality d') (maxSubscriberQuality d') (maxSubscriberNodeQuality d')).
Proof.
  revert d. induction ops as [|op ops IH]; intros d H1 H2.
  - cbn. split; [exact H1|]. split; [exact H2|]. congruence.
  - cbn [qualityRun].
    pose proof (qualityStep_invariant op d H1 H2) as (S1 & S2 & S3).
    destruct (qualityStep op d) as [d1 cb] eqn:Es. cbn [fst] in S1, S2, S3.
    specialize (IH d1 S1 S2).
    destruct (qualityRun ops d1) as [d2 cb'] eqn:Er. cbn [fst] in IH |- *.
    destruct IH as (R1 & R2 & R3). split; [exact R1|]. split; [exact R2|].
    intros _. destruct ops as [|op' ops'].
    + cbn in Er. injection Er as <- <-. exact S3.
    + apply R3. discriminate.
Qed.

Lemma qualityStep_lookup (op : QualityOp) (d : DynacastQuality) :
  let d' := fst (qualityStep op d) in
  match op with
  | NotifySubscriber id q =>
      maxSubscriberQuality d' !! id = (if isOff q then None else Some q) /\
      (forall k, k <> id -> maxSubscriberQuality d' !! k = maxSubscriberQuality d !! k) /\
      maxSubscriberNodeQuality d' = maxSubscriberNodeQuality d
  | NotifySubscriberNode id q =>
      maxSubscriberNodeQuality d' !! id = (if isOff q then None else Some q) /\
      (forall k, k <> id -> maxSubscriberNodeQuality d' !! k = maxSubscriberNodeQuality d !! k) /\
      maxSubscriberQuality d' = maxSubscriberQuality d
  end.
Proof.
  cbv zeta. destruct op as [id q|id q]; cbn [qualityStep];
    unfold NotifySubscriberMaxQuality, NotifySubscriberNodeMaxQuality;
    match goal with
    | |- context [updateQualityChange ?d0] =>
        destruct (updateQualityChange_state d0) as (E1 & E2 & _)
    end;
    rewrite E1, E2; cbn [mkDQ maxSubscriberQuality maxSubscriberNodeQuality];
    (split; [|split; [intros k Hk|reflexivity]]);
    destruct (isOff q).
  all: first [ apply lookup_delete_eq | apply lookup_insert_eq
             | apply lookup_delete_ne; congruence | apply lookup_insert_ne; congruence ].
Qed.

(** C7: for every sequence of NotifySubscriberMaxQuality and
    NotifySubscriberNodeMaxQuality calls on an aggregator created with
    empty maps, neither map holds OFF, after each call the stored
    aggregate is the maximum over both maps (OFF when both are empty),
    and the next report removes the reporter's entry when it is OFF and
    stores its quality otherwise, leaving every other entry as it is. *)
Theorem dynacast_aggregate_is_max (init : bool) (q : VideoQuality) (timer cb : bool)
  (ops : list QualityOp) :
  let d := fst (qualityRun ops (emptyDynacastQuality init q timer cb)) in
  noOff (maxSubscriberQuality d) /\ noOff (maxSubscriberNodeQuality d) /\
  (ops <> [] ->
   isMaxAggregate (maxSubscribedQuality d) (maxSubscriberQuality d) (maxSubscriberNodeQuality d)) /\
  (forall op,
   let d' := fst (qualityStep op d) in
   match op with
   | NotifySubscriber id q =>
       maxSubscriberQuality d' !! id = (if isOff q then None else Some q) /\
       (forall k, k <> id -> maxSubscriberQuality d' !! k = maxSubscriberQuality d !! k) /\
       maxSubscriberNodeQuality d' = maxSubscriberNodeQuality d
   | NotifySubscriberNode id q =>
       maxSubscriberNodeQuality d' !! id = (if isOff q then None else Some q) /\
       (forall k, k <> id -> maxSubscriberNodeQuality d' !! k = maxSubscriberNodeQuality d !! k) /\
       maxSubscriberQuality d' = maxSubscriberQuality d
   end).
Proof.
  cbv zeta.
  destruct (qualityRun_invariant ops (emptyDynacastQuality init q timer cb)) as (H1 & H2 & H3);
    try (cbn; intros k v Hk; rewrite lookup_empty in Hk; discriminate).
  split; [exact H1|]. split; [exact H2|]. split; [exact H3|].
  intros op. exact (qualityStep_lookup op _).
Qed.

(** Scenario 5 of the spec, after the first notification. *)
Example dynacast_scenario :
  snd (qualityRun [NotifySubscriber "A" VideoQuality_MEDIUM; NotifySubscriber "B" VideoQuality_LOW;
                   NotifySubscriber "A" VideoQuality_OFF; NotifySubscriber "B" VideoQuality_OFF]
                  (emptyDynacastQuality false VideoQuality_HIGH true true)) =
  [VideoQuality_MEDIUM; VideoQuality_LOW; VideoQuality_OFF].
Proof. vm_compute. reflexivity. Qed.

(* ------------------------------------------------------------------ *)
(** ** Negotiation epoch and failure timer *)

Ltac destruct_matches :=
  repeat match goal with
         | |- context [match ?x with _ => _ end] =>
             lazymatch x with
             | context [match _ with _ => _ end] => fail
             | _ => let E := fresh "E" in destruct x eqn:E; cbn -[int32Inc] in *
             end
         end.

Definition producesOffer (evs : list Event) : Prop :=
  exists o, In (PcSetLocalDescription o true) evs.

Lemma offerCreate_epoch (st : Stack) (options : option OfferOptions) (t : PCTransport)
  (evs0 : list Event) :
  ~ producesOffer evs0 ->
  let '(r, t', evs) := offerCreate st options t evs0 in
  (producesOffer evs ->
     negotiateCounter t' = int32Inc (negotiateCounter t) /\
     signalStateCheckTimer t' = Some (negotiateCounter t') /\
     negotiationState t' = negotiationStateClient) /\
  (~ producesOffer evs -> negotiateCounter t' = negotiateCounter t).
Proof.
  intros H0. unfold offerCreate, producesOffer in *.
  destruct_matches;
    first
      [ split; [intros _; auto
               | intros H; exfalso; apply H; eexists; apply in_or_app; right; left; reflexivity]
      | split; [intros [?o Ho]; apply in_app_or in Ho as [Ho|[Ho|[]]];
                [exfalso; apply H0; eexists; exact Ho | discriminate] | auto]
      | split; [intros H; exfalso; apply H0; exact H | auto] ].
Qed.

Lemma offerPrecheck_no_offer (st : Stack) (iceRestart : bool) (t : PCTransport) :
  match offerPrecheck st iceRestart t with
  | inl (_, t', evs) => ~ producesOffer evs /\ negotiateCounter t' = negotiateCounter t
  | inr (t', evs) => ~ producesOffer evs /\ negotiateCounter t' = negotiateCounter t
  end.
Proof.
  unfold offerPrecheck, producesOffer.
  destruct_matches; split; auto;
    intros [o Ho]; cbn in Ho; intuition discriminate.
Qed.

(** C2 (amended): each time [createAndSendOffer] produces a local offer
    (SetLocalDescription accepted) the epoch [negotiateCounter] goes to
    its 32-bit two's complement successor, the failure timer is armed for
    that epoch and the state is AwaitingAnswer; otherwise the epoch is
    unchanged.  The timer closure for epoch n calls onNegotiationFailed
    only if the epoch still equals n and the state is not Idle, and does
    so when moreover a callback is registered. *)
Theorem negotiation_epoch_and_failure_timer (st : Stack) (options : option OfferOptions)
  (t : PCTransport) :
  (let '(_, t', evs) := createAndSendOffer st options t in
   (producesOffer evs ->
      negotiateCounter t' = int32Inc (negotiateCounter t) /\
      signalStateCheckTimer t' = Some (negotiateCounter t') /\
      negotiationState t' = negotiationStateClient) /\
   (~ producesOffer evs -> negotiateCounter t' = negotiateCounter t)) /\
  (forall n u, failureTimerFire n u <> [] ->
     negotiateCounter u = n /\ negotiationState u <> negotiationStateNone) /\
  (forall n u, negotiateCounter u = n -> negotiationState u <> negotiationStateNone ->
     onNegotiationFailed u = true -> failureTimerFire n u = [OnNegotiationFailedCalled]).
Proof.
  split; [|split].
  - unfold createAndSendOffer.
    destruct (negb (onOffer t)).
    { split; [intros [o Ho]; destruct Ho | auto]. }
    destruct (connectionClosed (pc t)).
    { split; [intros [o Ho]; destruct Ho | auto]. }
    destruct (_ && isGathering _).
    { split; [intros [o Ho]; destruct Ho | auto]. }
    pose proof (offerPrecheck_no_offer st (iceRestartRequested options t) t) as Hp.
    unfold iceRestartRequested in Hp.
    destruct (offerPrecheck _ _ t) as [[[r t'] evs]|[t1 evs1]].
    + destruct Hp as [Hn Hc]. split; [intros H; contradiction | auto].
    + destruct Hp as [Hn Hc]. rewrite <- Hc.
      exact (offerCreate_epoch st options t1 evs1 Hn).
  - intros n u. unfold failureTimerFire.
    destruct (Z.eqb (negotiateCounter u) n) eqn:E1;
      destruct (negotiationState u); destruct (onNegotiationFailed u); cbn;
      try congruence; intros _; apply Z.eqb_eq in E1; split; congruence.
  - intros n u <- Hs Hf. unfold failureTimerFire. rewrite Z.eqb_refl, Hf.
    destruct (negotiationState u); [contradiction | reflexivity | reflexivity].
Qed.

Lemma int32Inc_in_range (z : Z) : (-2 ^ 31 <= z < 2 ^ 31 - 1)%Z -> int32Inc z = (z + 1)%Z.
Proof.
  intros H. unfold int32Inc. rewrite Z.mod_small; lia.
Qed.

(** C2 counterexample: at epoch 2^31 - 1 a new offer moves the epoch to
    -2^31, not to 2^31. *)
Lemma negotiateCounter_wraps_counterexample :
  let t := set_negotiateCounter freshTransport (2 ^ 31 - 1)%Z in
  let '(_, t', evs) := createAndSendOffer permissiveStack None t in
  producesOffer evs /\ negotiateCounter t' = (- 2 ^ 31)%Z /\
  negotiateCounter t' <> (negotiateCounter t + 1)%Z.
Proof.
  vm_compute. split; [eexists; left; reflexivity | split; [reflexivity | discriminate]].
Qed.

(* ------------------------------------------------------------------ *)
(** ** Remote descriptions and the candidate queue *)

Lemma addPendingCandidates_spec (st : Stack) (p : PeerConnection) (q : list ICECandidateInit) :
  match addPendingCandidates st p q with
  | (None, evc) =>
      List.Forall (fun c => addICECandidateOk st p c = true) q /\
      evc = map (fun c => PcAddICECandidate c true) q
  | (Some e, evc) =>
      e = ErrStack "AddICECandidate" /\
      exists q1 c q2, q = app q1 (c :: q2) /\
        List.Forall (fun c => addICECandidateOk st p c = true) q1 /\
        addICECandidateOk st p c = false /\
        evc = app (map (fun c => PcAddICECandidate c true) q1) [PcAddICECandidate c false]
  end.
Proof.
  induction q as [|c q IH]; cbn [addPendingCandidates].
  - split; constructor.
  - destruct (addICECandidateOk st p c) eqn:Hc.
    + destruct (addPendingCandidates st p q) as [[e|] evc].
      * destruct IH as [He (q1 & c' & q2 & -> & Hq1 & Hc' & ->)].
        split; [exact He|]. exists (c :: q1), c', q2.
        split; [reflexivity|]. split; [constructor; assumption|]. split; [exact Hc'|].
        reflexivity.
      * destruct IH as [Hq ->]. split; [constructor; assumption | reflexivity].
    + split; [reflexivity|]. exists [], c, q. split; [reflexivity|].
      split; [constructor|]. split; [exact Hc | reflexivity].
Qed.

Lemma createAndSendOffer_pendingCandidates (st : Stack) (options : option OfferOptions)
  (t : PCTransport) :
  pendingCandidates (snd (fst (createAndSendOffer st options t))) = pendingCandidates t.
Proof.
  unfold createAndSendOffer, offerPrecheck, offerCreate. destruct_matches; reflexivity.
Qed.

(** C4 (amended): a candidate arriving while the peer-connection has no
    remote description is appended to the queue and nothing else happens.
    When [SetRemoteDescription] gets the peer-connection to accept the
    description, its next calls hand the queued candidates to the
    peer-connection in arrival order: if all are accepted the queue is
    emptied; the first one refused stops the loop, the error is returned
    and the queue is left as it was. *)
Theorem candidate_queue_drain (st : Stack) (c : ICECandidateInit) (sd : SessionDescription)
  (t : PCTransport) :
  (RemoteDescription (pc t) = None ->
   AddICECandidate st c t =
   (Ok tt, set_pendingCandidates t (app (pendingCandidates t) [c]), [])) /\
  (let '(r, t', evs) := SetRemoteDescription st sd t in
   let q := pendingCandidates t in
   (exists rest, evs = PcSetRemoteDescription sd true :: rest) ->
   exists p, pcSetRemoteDescription st (pc t) sd = Some p /\
     ((List.Forall (fun c => addICECandidateOk st p c = true) q /\
       pendingCandidates t' = [] /\
       exists rest, evs = PcSetRemoteDescription sd true ::
                          app (map (fun c => PcAddICECandidate c true) q) rest) \/
      (exists q1 c q2, q = app q1 (c :: q2) /\
         List.Forall (fun c => addICECandidateOk st p c = true) q1 /\
         addICECandidateOk st p c = false /\
         r = Err (ErrStack "AddICECandidate") /\ pendingCandidates t' = q /\
         evs = PcSetRemoteDescription sd true ::
               app (map (fun c => PcAddICECandidate c true) q1) [PcAddICECandidate c false]))).
Proof.
  split.
  - intros H. unfold AddICECandidate. rewrite H. reflexivity.
  - unfold SetRemoteDescription.
    destruct (match sdType sd with
              | SDPTypeOffer => isRemoteOfferRestartICE t sd
              | SDPTypeAnswer => Ok ("", false) end) as [[cred restart]|e];
      [| intros [rest H]; discriminate].
    destruct (restart && isGathering (iceGatheringState (pc t))); [intros [rest H]; discriminate|].
    destruct (pcSetRemoteDescription st (pc t) sd) as [p|] eqn:Hp;
      [| intros [rest H]; discriminate].
    destruct (String.eqb _ "" || restart);
    cbn [set_pc set_currentOfferIceCredential set_negotiationState set_signalStateCheckTimer
         pc pendingCandidates negotiationState];
    pose proof (addPendingCandidates_spec st p (pendingCandidates t)) as Hd;
    destruct (addPendingCandidates st p (pendingCandidates t)) as [[e|] evc].
    1,3: destruct Hd as [-> (q1 & c' & q2 & Hq & Hq1 & Hc' & ->)];
      intros _; exists p; split; [reflexivity|];
      right; exists q1, c', q2; cbn; auto 10.
    all: destruct Hd as [Hq ->]; destruct (negotiationState t); destruct (sdType sd).
    all: match goal with
         | |- context [createAndSendOffer ?s None ?t3] =>
             pose proof (createAndSendOffer_pendingCandidates s None t3) as Hpc;
             destruct (createAndSendOffer s None t3) as [[r4 t4] evo];
             cbn in Hpc
         | _ => idtac
         end.
    all: destruct (onRemoteDescripitonSettled _) as [[e|]|];
      intros _; exists p; split; try reflexivity; left; split; try exact Hq;
      (split; [assumption || reflexivity
              | eexists; cbn; rewrite <- ?app_assoc; reflexivity]).
Qed.

(** A parsed offer carrying the session-level ICE credential [ufrag:pwd]. *)
Definition iceOffer (n : nat) (ufrag pwd : string) : SessionDescription :=
  {| sdType := SDPTypeOffer; sdText := n;
     sdParsed := Some {| sdp.Attributes := [ {| sdp.Key := "ice-ufrag"; sdp.Value := ufrag |};
                                              {| sdp.Key := "ice-pwd"; sdp.Value := pwd |} ];
                         sdp.MediaDescriptions := [] |} |}.

(** A stack that refuses every remote candidate. *)
Definition candidateRefusingStack : Stack :=
  {| createOffer := fun _ _ => Some (offerNo 100);
     setLocalDescriptionOk := fun _ _ => true;
     setRemoteDescriptionOk := fun _ _ => true;
     addICECandidateOk := fun _ _ => false |}.

Definition candidate1 : ICECandidateInit := {| Candidate := "candidate:1 1 udp 1 10.0.0.1 9 typ host" |}.

(** C4 counterexample: a candidate is queued; the first remote offer is
    accepted by the peer-connection but the candidate is refused, so the
    call fails and the queue keeps it; gathering starts and a second offer
    with new credentials is deferred: that call returns success and the
    queue still holds the candidate, which was never applied. *)
Lemma candidate_queue_not_drained_counterexample :
  let st := candidateRefusingStack in
  let '(r1, t1, e1) := AddICECandidate st candidate1 freshTransport in
  let '(r2, t2, e2) := SetRemoteDescription st (iceOffer 1 "u" "p") t1 in
  let t3 := set_pc t2 (pcSetGathering (pc t2) ICEGatheringStateGathering) in
  let '(r4, t4, e4) := SetRemoteDescription st (iceOffer 2 "v" "q") t3 in
  r1 = Ok tt /\ e1 = [] /\ pendingCandidates t1 = [candidate1] /\
  r2 = Err (ErrStack "AddICECandidate") /\
  RemoteDescription (pc t2) = Some (iceOffer 1 "u" "p") /\
  pendingCandidates t2 = [candidate1] /\
  r4 = Ok tt /\ e4 = [] /\ pendingCandidates t4 = [candidate1].
Proof.
  vm_compute. repeat split.
Qed.

(* ------------------------------------------------------------------ *)
(** ** The offer that follows an answer in RetryQueued *)

(** The calls of [onOffer] among the events. *)
Definition isOfferSent (e : Event) : bool :=
  match e with OnOfferCalled _ => true | _ => false end.

Definition offerCount (evs : list Event) : nat := length (List.filter isOfferSent evs).

Lemma offerCount_app (a b : list Event) : offerCount (app a b) = offerCount a + offerCount b.
Proof.
  unfold offerCount. induction a as [|e a IH]; cbn; [reflexivity|].
  destruct (isOfferSent e); cbn; lia.
Qed.

Lemma offerCount_cons (e : Event) (l : list Event) :
  offerCount (e :: l) = (if isOfferSent e then 1 else 0) + offerCount l.
Proof. unfold offerCount. cbn. destruct (isOfferSent e); reflexivity. Qed.

Lemma offerCount_nil : offerCount [] = 0.
Proof. reflexivity. Qed.

Lemma offerCount_candidates (b : bool) (q : list ICECandidateInit) :
  offerCount (map (fun c => PcAddICECandidate c b) q) = 0.
Proof. induction q; cbn; auto. Qed.

Lemma filterCandidates_sdType (t : PCTransport) (sd : SessionDescription) :
  sdType (filterCandidates t sd) = sdType sd.
Proof. unfold filterCandidates. destruct (sdParsed sd); reflexivity. Qed.

Lemma createAndSendOffer_idle (st : Stack) (t : PCTransport) :
  negotiationState t = negotiationStateNone ->
  let '(_, t', evo) := createAndSendOffer st None t in
  (offerCount evo = 1 /\ negotiationState t' = negotiationStateClient \/
   offerCount evo = 0 /\ negotiationState t' = negotiationStateNone) /\
  (onOffer t = true -> connectionClosed (pc t) = false ->
   restartAtNextOffer t && isGathering (iceGatheringState (pc t)) = false ->
   signalingState (pc t) = SignalingStateStable ->
   (forall b, exists o, createOffer st (pc t) b = Some o /\ sdType o = SDPTypeOffer) ->
   (forall o, setLocalDescriptionOk st (pc t) o = true) ->
   offerCount evo = 1).
Proof.
  intros Hn. unfold createAndSendOffer, offerPrecheck, offerCreate.
  rewrite Hn.
  destruct (onOffer t) eqn:Ho; cbn -[int32Inc].
  2: { split; [right; auto | discriminate]. }
  destruct (connectionClosed (pc t)) eqn:Hcl; cbn -[int32Inc].
  { split; [right; auto | discriminate]. }
  destruct (restartAtNextOffer t) eqn:Hr; destruct (isGathering (iceGatheringState (pc t))) eqn:Hg;
    cbn -[int32Inc].
  { split; [right; auto | discriminate]. }
  all: destruct_matches.
  all: try (split; [left; auto; fail | intros; reflexivity]).
  all: split; [right; auto|].
  all: intros _ _ _ Hs Hc Hl.
  all: match goal with
       | E : createOffer _ _ ?b = _ |- _ =>
           destruct (Hc b) as (o & Hco & Hot); rewrite Hco in E
       end.
  all: try discriminate.
  all: match goal with
       | E : Some _ = Some _ |- _ => injection E as <-
       end.
  all: match goal with
       | E : pcSetLocalDescription _ _ _ = None |- _ =>
           unfold pcSetLocalDescription in E; rewrite Hl, filterCandidates_sdType, Hot, Hs in E;
           discriminate
       end.
Qed.

Lemma addPendingCandidates_all (st : Stack) (p : PeerConnection) (q : list ICECandidateInit) :
  List.Forall (fun c => addICECandidateOk st p c = true) q ->
  addPendingCandidates st p q = (None, map (fun c => PcAddICECandidate c true) q).
Proof.
  induction 1 as [|c q Hc Hq IH]; cbn; [reflexivity|].
  rewrite Hc, IH. reflexivity.
Qed.

Lemma no_local_in_candidates (o : SessionDescription) (b b' : bool) (q : list ICECandidateInit) :
  ~ In (PcSetLocalDescription o b) (map (fun c => PcAddICECandidate c b') q).
Proof. rewrite in_map_iff. intros (c & H & _). discriminate. Qed.

Ltac simpl_setters :=
  cbn [set_pc set_pendingCandidates set_currentOfferIceCredential set_negotiationState
       set_signalStateCheckTimer set_pendingRestartIceOffer pc pendingCandidates negotiationState
       onRemoteDescripitonSettled onOffer restartAtNextOffer currentOfferIceCredential
       pendingRestartIceOffer] in *.

(** C5 (amended): let [SetRemoteDescription] get the peer-connection to
    accept [sd] and apply every queued candidate.  If the state before was
    not RetryQueued, or [sd] is an offer, no offer is sent and
    SetLocalDescription is not called.  If the state was RetryQueued and
    [sd] is an answer, [createAndSendOffer(nil)] runs once on the state
    reset to Idle: at most one offer is sent, and one is sent (the state
    then being AwaitingAnswer) exactly when it does not stop at one of its
    guards (no onOffer callback, closed peer-connection, an ICE restart
    requested by [restartAtNextOffer] during gathering) nor on a stack
    error; otherwise the state stays Idle. *)
Theorem retry_answer_follow_up_offer (st : Stack) (sd : SessionDescription) (t : PCTransport)
  (p : PeerConnection)
  (Hp : pcSetRemoteDescription st (pc t) sd = Some p)
  (Hc : List.Forall (fun c => addICECandidateOk st p c = true) (pendingCandidates t)) :
  let '(r, t', evs) := SetRemoteDescription st sd t in
  ((negotiationState t <> negotiationRetry \/ sdType sd = SDPTypeOffer) ->
     offerCount evs = 0 /\ (forall o b, ~ In (PcSetLocalDescription o b) evs)) /\
  (negotiationState t = negotiationRetry -> sdType sd = SDPTypeAnswer ->
     (offerCount evs = 1 /\ negotiationState t' = negotiationStateClient \/
      offerCount evs = 0 /\ negotiationState t' = negotiationStateNone) /\
     (onOffer t = true -> connectionClosed p = false ->
      restartAtNextOffer t && isGathering (iceGatheringState p) = false ->
      (forall b, exists o, createOffer st p b = Some o /\ sdType o = SDPTypeOffer) ->
      (forall o, setLocalDescriptionOk st p o = true) ->
      offerCount evs = 1 /\ negotiationState t' = negotiationStateClient)).
Proof.
  assert (Hs : sdType sd = SDPTypeAnswer -> signalingState p = SignalingStateStable).
  { intros Ha. unfold pcSetRemoteDescription in Hp. rewrite Ha in Hp.
    destruct (setRemoteDescriptionOk st (pc t) sd), (signalingState (pc t));
      try discriminate; injection Hp as <-; reflexivity. }
  unfold SetRemoteDescription.
  destruct (sdType sd) eqn:Ht.
  - destruct (isRemoteOfferRestartICE t sd) as [[cred restart]|e]; cbn.
    2: { split; [intros _; split; [reflexivity | intros ? ? []] | discriminate]. }
    destruct (restart && _).
    { split; [intros _; split; [reflexivity | intros ? ? []] | discriminate]. }
    rewrite Hp. cbn [set_pc pc pendingCandidates set_currentOfferIceCredential
                     set_negotiationState set_signalStateCheckTimer].
    destruct (_ || restart); cbn [set_pc pc pendingCandidates set_currentOfferIceCredential
                     set_negotiationState set_signalStateCheckTimer];
      rewrite (addPendingCandidates_all st p _ Hc);
      simpl_setters;
      destruct (negotiationState t); cbv beta iota zeta; simpl_setters;
      destruct (onRemoteDescripitonSettled t) as [[e|]|]; cbv beta iota zeta;
      (split; [intros _; split | intros _ Hx; discriminate]);
      rewrite ?app_nil_r, ?offerCount_cons, ?offerCount_app, ?offerCount_cons,
        ?offerCount_candidates, ?offerCount_nil; cbn [isOfferSent]; try lia;
      intros o b Hin; rewrite ?app_nil_r in Hin;
      cbn [In] in Hin; rewrite ?in_app_iff in Hin; cbn [In] in Hin;
      repeat destruct Hin as [Hin|Hin]; try discriminate; try contradiction;
      eapply no_local_in_candidates; exact Hin.
  - cbv beta iota zeta. cbn [andb]. rewrite Hp.
    specialize (Hs eq_refl).
    destruct (_ || false); simpl_setters;
      rewrite (addPendingCandidates_all st p _ Hc);
      destruct (negotiationState t) eqn:Hn; cbv beta iota zeta; simpl_setters.
    all: lazymatch goal with
         | |- context [createAndSendOffer ?s None ?t0] =>
             pose proof (createAndSendOffer_idle s t0 eq_refl) as Hi;
             destruct (createAndSendOffer s None t0) as [[r4 t4] evo]
         | _ => idtac
         end.
    all: destruct (onRemoteDescripitonSettled _) as [[e|]|]; cbv beta iota zeta.
    all: rewrite ?app_nil_r; repeat (rewrite offerCount_cons || rewrite offerCount_app ||
                                      rewrite offerCount_candidates || rewrite offerCount_nil);
      cbn [isOfferSent].
    all: split; [intros [Hx|Hx]; try congruence | intros Hx _; try discriminate Hx].
    all: try (split; [lia|]; intros o b Hin;
      repeat (rewrite in_app_iff in Hin || (progress cbn [In] in Hin));
      repeat destruct Hin as [Hin|Hin]; try discriminate; try contradiction;
      eapply no_local_in_candidates; exact Hin).
    all: simpl_setters; destruct Hi as [Hi1 Hi2]; split.
    all: try (destruct Hi1 as [[H1 H2]|[H1 H2]]; [left|right]; (split; [lia|assumption])).
    all: intros Ho Hcl Hr Hcr Hsl; specialize (Hi2 Ho Hcl Hr Hs Hcr Hsl).
    all: split; [lia|].
    all: destruct Hi1 as [[H1 H2]|[H1 H2]]; [assumption | lia].
Qed.

Definition answerNo (n : nat) : SessionDescription :=
  {| sdType := SDPTypeAnswer; sdText := n; sdParsed := None |}.

(** AwaitingAnswer was turned into RetryQueued by a second negotiation. *)
Definition retryTransport : PCTransport :=
  set_negotiationState
    (set_pc freshTransport
       {| signalingState := SignalingStateHaveLocalOffer; localDescription := Some (offerNo 100);
          currentRemoteDescription := None; pendingRemoteDescription := None;
          iceGatheringState := ICEGatheringStateComplete; connectionClosed := false |})
    negotiationRetry.

Definition answeredPC : PeerConnection :=
  {| signalingState := SignalingStateStable; localDescription := Some (offerNo 100);
     currentRemoteDescription := Some (answerNo 1); pendingRemoteDescription := None;
     iceGatheringState := ICEGatheringStateComplete; connectionClosed := false |}.

Lemma retry_answer_follow_up_offer_witness :
  let '(_, t', evs) := SetRemoteDescription permissiveStack (answerNo 1) retryTransport in
  offerCount evs = 1 /\ negotiationState t' = negotiationStateClient.
Proof.
  pose proof (retry_answer_follow_up_offer permissiveStack (answerNo 1) retryTransport answeredPC
                eq_refl (List.Forall_nil _)) as H.
  destruct (SetRemoteDescription permissiveStack (answerNo 1) retryTransport) as [[r t'] evs].
  destruct H as [_ H]. apply H; try reflexivity.
  intros b. exists (offerNo 100). split; reflexivity.
Defined.

(** C5 counterexample: the answer arrives in RetryQueued while an ICE
    restart is owed ([restartAtNextOffer]) and gathering is in progress:
    the answer is applied but no offer follows; the state is Idle and the
    restart waits for the gathering hook. *)
Lemma retry_answer_no_offer_counterexample :
  let t := set_restartAtNextOffer
             (set_pc retryTransport (pcSetGathering (pc retryTransport) ICEGatheringStateGathering))
             true in
  let '(r, t', evs) := SetRemoteDescription permissiveStack (answerNo 1) t in
  r = Ok tt /\ evs = [PcSetRemoteDescription (answerNo 1) true] /\ offerCount evs = 0 /\
  negotiationState t' = negotiationStateNone /\ restartAfterGathering t' = true.
Proof.
  vm_compute. repeat split.
Qed.

(* ------------------------------------------------------------------ *)
(** ** Remote ICE-restart offers during gathering *)

Lemma createAndSendOffer_pendingRestartIceOffer (st : Stack) (options : option OfferOptions)
  (t : PCTransport) :
  pendingRestartIceOffer (snd (fst (createAndSendOffer st options t))) = pendingRestartIceOffer t.
Proof.
  unfold createAndSendOffer, offerPrecheck, offerCreate. destruct_matches; reflexivity.
Qed.

Lemma SetRemoteDescription_pendingRestartIceOffer (st : Stack) (sd : SessionDescription)
  (t : PCTransport) :
  let '(_, t', evs) := SetRemoteDescription st sd t in
  pendingRestartIceOffer t' = pendingRestartIceOffer t \/
  (pendingRestartIceOffer t' = Some sd /\ evs = [] /\
   isGathering (iceGatheringState (pc t)) = true).
Proof.
  unfold SetRemoteDescription.
  destruct (match sdType sd with
            | SDPTypeOffer => isRemoteOfferRestartICE t sd
            | SDPTypeAnswer => Ok ("", false) end) as [[cred restart]|e]; [|left; reflexivity].
  destruct (restart && _) eqn:Hg;
    [apply andb_true_iff in Hg; right; split; [|split]; solve [reflexivity | apply Hg]|].
  destruct (pcSetRemoteDescription st (pc t) sd); [|left; reflexivity].
  destruct (_ || restart); simpl_setters;
    destruct (addPendingCandidates _ _ _) as [[e|] evc]; cbv beta iota zeta; simpl_setters;
    try (left; reflexivity);
    destruct (negotiationState t), (sdType sd); cbv beta iota zeta;
    lazymatch goal with
    | |- context [createAndSendOffer ?s None ?t0] =>
        pose proof (createAndSendOffer_pendingRestartIceOffer s None t0) as Hi;
        destruct (createAndSendOffer s None t0) as [[r4 t4] evo]; cbn in Hi
    | _ => idtac
    end;
    cbv beta iota zeta;
    destruct (onRemoteDescripitonSettled _) as [[e|]|]; left; simpl_setters; auto.
Qed.

(** C3 (amended): a remote offer that parses, carries one ICE credential
    different from a non-empty stored [currentOfferIceCredential], and
    arrives while gathering, is stored in [pendingRestartIceOffer]
    (replacing any offer stored before) and success is returned with no
    peer-connection call.  No operation other than the gathering-complete
    hook takes the stored offer out; the only change another operation
    makes to it is such a replacement.  When gathering completes with a
    restart owed ([restartAfterGathering]) the hook makes the restart offer
    and leaves the stored offer in place; otherwise it takes the stored
    offer out and applies it once with [SetRemoteDescription], whose first
    call is then the peer-connection's SetRemoteDescription on that offer. *)
Theorem remote_restart_offer_deferred (st : Stack) (t : PCTransport) :
  (forall sd parsed u pw,
     sdType sd = SDPTypeOffer -> sdParsed sd = Some parsed ->
     extractICECredential parsed = Ok (u, pw) ->
     currentOfferIceCredential t <> "" -> currentOfferIceCredential t <> u ++ ":" ++ pw ->
     isGathering (iceGatheringState (pc t)) = true ->
     SetRemoteDescription st sd t = (Ok tt, set_pendingRestartIceOffer t (Some sd), [])) /\
  (forall op, op <> OpGatheringComplete ->
     let '(t', evs) := step st op t in
     pendingRestartIceOffer t' = pendingRestartIceOffer t \/
     (exists sd, op = OpSetRemoteDescription sd /\ pendingRestartIceOffer t' = Some sd /\
                 evs = [])) /\
  (let '(t', evs) := onGatheringComplete st t in
   (restartAfterGathering t = true ->
      pendingRestartIceOffer t' = pendingRestartIceOffer t /\
      (t', evs) = (let '(_, t2, e2) := createAndSendOffer st (Some {| ICERestart := true |})
                                         (set_pc t (pcSetGathering (pc t) ICEGatheringStateComplete))
                   in (t2, e2))) /\
   (restartAfterGathering t = false -> forall o, pendingRestartIceOffer t = Some o ->
      pendingRestartIceOffer t' = None /\
      (t', evs) = (let '(_, t2, e2) :=
                     SetRemoteDescription st o
                       (set_pendingRestartIceOffer
                          (set_pc t (pcSetGathering (pc t) ICEGatheringStateComplete)) None)
                   in (t2, e2)) /\
      (forall cred restart, sdType o = SDPTypeOffer ->
         isRemoteOfferRestartICE t o = Ok (cred, restart) ->
         exists b rest, evs = PcSetRemoteDescription o b :: rest)) /\
   (restartAfterGathering t = false -> pendingRestartIceOffer t = None ->
      evs = [] /\ pendingRestartIceOffer t' = None)).
Proof.
  split; [|split].
  - intros sd parsed u pw Ht Hp He Hne Hd Hg.
    unfold SetRemoteDescription, isRemoteOfferRestartICE.
    rewrite Ht, Hp, He.
    apply String.eqb_neq in Hne, Hd. rewrite Hne, Hd, Hg. reflexivity.
  - intros op Hop. destruct op; unfold step.
    + unfold Negotiate. destruct force.
      * pose proof (createAndSendOffer_pendingRestartIceOffer st None
                      (set_debounced t (Some DebouncedNoop))) as H.
        destruct (createAndSendOffer _ _ _) as [[r t'] evs]. left. exact H.
      * left. reflexivity.
    + unfold debounceFire. destruct (debounced t) as [[|]|].
      * left. reflexivity.
      * pose proof (createAndSendOffer_pendingRestartIceOffer st None (set_debounced t None)) as H.
        destruct (createAndSendOffer _ _ _) as [[r t'] evs]. left. exact H.
      * left. reflexivity.
    + pose proof (createAndSendOffer_pendingRestartIceOffer st options t) as H.
      destruct (createAndSendOffer _ _ _) as [[r t'] evs]. left. exact H.
    + pose proof (SetRemoteDescription_pendingRestartIceOffer st sd t) as H.
      destruct (SetRemoteDescription st sd t) as [[r t'] evs].
      destruct H as [H|[H1 [H2 _]]]; [left; exact H | right; exists sd; auto].
    + unfold AddICECandidate. destruct (RemoteDescription _); [destruct (addICECandidateOk _ _ _)|];
        left; reflexivity.
    + left. reflexivity.
    + contradiction.
    + left. reflexivity.
  - unfold onGatheringComplete. cbn [set_pc restartAfterGathering pendingRestartIceOffer].
    destruct (restartAfterGathering t) eqn:Hr.
    + pose proof (createAndSendOffer_pendingRestartIceOffer st (Some {| ICERestart := true |})
                    (set_pc t (pcSetGathering (pc t) ICEGatheringStateComplete))) as H.
      destruct (createAndSendOffer _ _ _) as [[r t'] evs]. cbn in H.
      split; [intros _; split; [exact H | reflexivity] | split; intros Hf; discriminate Hf].
    + destruct (pendingRestartIceOffer t) as [o|] eqn:Ho.
      * set (t1 := set_pendingRestartIceOffer _ None).
        pose proof (SetRemoteDescription_pendingRestartIceOffer st o t1) as H.
        assert (Hc : forall cred restart, sdType o = SDPTypeOffer ->
                  isRemoteOfferRestartICE t o = Ok (cred, restart) ->
                  exists b rest, (let '(_, _, e2) := SetRemoteDescription st o t1 in e2) =
                                 PcSetRemoteDescription o b :: rest).
        { intros cred restart Hto Hi. clear H. subst t1. unfold SetRemoteDescription. rewrite Hto.
          match goal with |- context [isRemoteOfferRestartICE ?t1 o] =>
            replace (isRemoteOfferRestartICE t1 o) with (isRemoteOfferRestartICE t o) by reflexivity end.
          rewrite Hi. cbn [set_pc set_pendingRestartIceOffer pc pcSetGathering iceGatheringState
                           isGathering]. rewrite andb_false_r.
          destruct (pcSetRemoteDescription _ _ _); cbv beta iota zeta;
            [|eexists _, _; reflexivity].
          destruct (_ || restart); simpl_setters;
            destruct (addPendingCandidates _ _ _) as [[e|] evc]; cbv beta iota zeta;
            try (eexists _, _; reflexivity);
            destruct (negotiationState t);
            cbv beta iota zeta; simpl_setters;
            destruct (onRemoteDescripitonSettled t) as [[e|]|]; eexists _, _; reflexivity. }
        destruct (SetRemoteDescription st o t1) as [[r t'] evs] eqn:Hsrd.
        split; [intros Hf; discriminate Hf|]. split; [|intros _ Hf; discriminate Hf].
        intros _ o' Ho'. injection Ho' as <-.
        split; [|split; [fold t1; rewrite Hsrd; reflexivity | exact Hc]].
        destruct H as [H|[_ [_ H]]]; [exact H | discriminate H].
      * split; [intros Hf; discriminate Hf|]. split; [intros _ o' Hf; discriminate Hf|].
        intros _ _. split; [reflexivity | exact Ho].
Qed.

(** A transport that has negotiated the credential [u:p] and is gathering. *)
Definition gatheringNegotiatedTransport : PCTransport :=
  set_pc (set_currentOfferIceCredential freshTransport "u:p")
         (pcSetGathering emptyPC ICEGatheringStateGathering).

(** C3 counterexample: two remote restart offers arrive during gathering;
    both calls succeed, the second replaces the first, and when gathering
    completes only the second one is applied: the first is never. *)
Lemma deferred_offer_replaced_counterexample :
  let st := permissiveStack in
  let '(r1, t1, e1) := SetRemoteDescription st (iceOffer 1 "v" "q") gatheringNegotiatedTransport in
  let '(r2, t2, e2) := SetRemoteDescription st (iceOffer 2 "w" "r") t1 in
  let '(t3, e3) := onGatheringComplete st t2 in
  r1 = Ok tt /\ e1 = [] /\ pendingRestartIceOffer t1 = Some (iceOffer 1 "v" "q") /\
  r2 = Ok tt /\ e2 = [] /\ pendingRestartIceOffer t2 = Some (iceOffer 2 "w" "r") /\
  e3 = [PcSetRemoteDescription (iceOffer 2 "w" "r") true] /\ pendingRestartIceOffer t3 = None.
Proof.
  vm_compute. repeat split.
Qed.

Ltac simpl_transport :=
  cbn [set_pc set_pendingCandidates set_debounced set_negotiationPending set_onOffer
       set_onRemoteDescripitonSettled set_restartAfterGathering set_restartAtNextOffer
       set_negotiationState set_negotiateCounter set_signalStateCheckTimer set_onNegotiationFailed
       set_previousAnswer set_preferTCP set_currentOfferIceCredential set_pendingRestartIceOffer
       pc pendingCandidates debounced negotiationPending onOffer onRemoteDescripitonSettled
       restartAfterGathering restartAtNextOffer negotiationState negotiateCounter
       signalStateCheckTimer onNegotiationFailed previousAnswer preferTCP
       currentOfferIceCredential pendingRestartIceOffer
       pcSetGathering signalingState iceGatheringState] in *.

(* ================================================================== *)
(** ** At most one outstanding local offer *)

(** The offers a run produces are read off its event log: an
    [OnOfferCalled] is a local offer sent; a remote answer the pc accepts
    ([PcSetRemoteDescription sd true] with [sd] an answer) settles the
    outstanding one. [offerScan pend evs] follows the log from a state
    where an offer is outstanding iff [pend], and fails ([None]) at a second
    offer sent while one is outstanding. *)

Definition isAnswer (sd : SessionDescription) : bool :=
  match sdType sd with SDPTypeAnswer => true | SDPTypeOffer => false end.

Fixpoint offerScan (pend : bool) (evs : list Event) : option bool :=
  match evs with
  | [] => Some pend
  | OnOfferCalled _ :: rest => if pend then None else offerScan true rest
  | PcSetRemoteDescription sd ok :: rest =>
      offerScan (if ok && isAnswer sd then false else pend) rest
  | _ :: rest => offerScan pend rest
  end.

(** ICE restarts requested by the caller are outside the property. *)
Definition allowedOptions (options : option OfferOptions) : bool :=
  match options with Some o => negb (ICERestart o) | None => true end.

Definition allowedOp (op : Op) : bool :=
  match op with OpCreateAndSendOffer options => allowedOptions options | _ => true end.

(** The invariant kept by every operation: no restart is scheduled, and
    while an offer is outstanding the negotiation is not Idle and the pc is
    in have-local-offer. *)
Definition OfferInv (pend : bool) (t : PCTransport) : Prop :=
  restartAtNextOffer t = false /\ restartAfterGathering t = false /\
  (pend = true -> negotiationState t <> negotiationStateNone /\
                  signalingState (pc t) = SignalingStateHaveLocalOffer).

Definition scanInv (pend : bool) (t : PCTransport) (evs : list Event) : Prop :=
  match offerScan pend evs with Some pend' => OfferInv pend' t | None => False end.

Lemma offerScan_app (p : bool) (a b : list Event) :
  offerScan p (app a b) = match offerScan p a with Some p' => offerScan p' b | None => None end.
Proof.
  revert p. induction a as [|e a IH]; intros p; [reflexivity|].
  destruct e; cbn; try apply IH. destruct p; [reflexivity | apply IH].
Qed.

Lemma offerScan_candidates (p b : bool) (q : list ICECandidateInit) :
  offerScan p (map (fun c => PcAddICECandidate c b) q) = Some p.
Proof. induction q; cbn; auto. Qed.

Lemma pcSetLocalDescription_sig (st : Stack) (p p' : PeerConnection) (sd : SessionDescription) :
  pcSetLocalDescription st p sd = Some p' -> signalingState p' = SignalingStateHaveLocalOffer.
Proof.
  unfold pcSetLocalDescription. destruct (setLocalDescriptionOk st p sd), (sdType sd), (signalingState p);
    intros H; try discriminate; injection H as <-; reflexivity.
Qed.

Lemma createAndSendOffer_offerInv (st : Stack) (options : option OfferOptions) (pend : bool)
  (t : PCTransport) :
  allowedOptions options = true -> OfferInv pend t ->
  let '(_, t', evs) := createAndSendOffer st options t in scanInv pend t' evs.
Proof.
  intros Ho Hinv. pose proof Hinv as (H1 & H2 & H3). unfold scanInv.
  assert (Hr : (match options with Some o => ICERestart o | None => false end || restartAtNextOffer t)
               = false).
  { rewrite H1. destruct options as [[[|]]|]; cbn in *; congruence. }
  unfold createAndSendOffer. rewrite Hr. cbn [andb negb].
  destruct (onOffer t); cbn [negb].
  2: { exact Hinv. }
  destruct (connectionClosed (pc t)).
  { exact Hinv. }
  unfold offerPrecheck. cbn [andb].
  destruct (negotiationState t) eqn:Hn; cbv beta iota zeta.
  - unfold offerCreate. destruct pend.
    { destruct (H3 eq_refl) as [Hx _]. contradiction. }
    destruct (previousAnswer t); cbv beta iota zeta; cbn [set_previousAnswer restartAtNextOffer];
      rewrite H1;
      destruct (createOffer _ _ _); cbv beta iota zeta; try exact Hinv;
      (destruct (pcSetLocalDescription _ _ _) eqn:Hl; cbv beta iota zeta; cbn [app offerScan];
      unfold OfferInv; simpl_transport;
      [apply pcSetLocalDescription_sig in Hl;
       split; [assumption | split; [reflexivity | intros _; split; [discriminate | exact Hl]]]
      | split; [assumption | split; [assumption | discriminate]]]).
  - unfold OfferInv. cbn [offerScan]. simpl_transport. split; [assumption | split; [assumption|]].
    intros Hp. destruct (H3 Hp) as [_ Hs]. split; [discriminate | exact Hs].
  - exact Hinv.
Qed.

Lemma addPendingCandidates_scan (st : Stack) (p : PeerConnection) (q : list ICECandidateInit)
  (b : bool) : offerScan b (snd (addPendingCandidates st p q)) = Some b.
Proof.
  induction q as [|c q IH]; cbn; [reflexivity|].
  destruct (addICECandidateOk st p c); [|reflexivity].
  destruct (addPendingCandidates st p q). exact IH.
Qed.

Lemma SetRemoteDescription_offerInv (st : Stack) (sd : SessionDescription) (pend : bool)
  (t : PCTransport) :
  OfferInv pend t ->
  let '(_, t', evs) := SetRemoteDescription st sd t in scanInv pend t' evs.
Proof.
  intros Hinv. pose proof Hinv as (H1 & H2 & H3). unfold scanInv, SetRemoteDescription.
  destruct (match sdType sd with
            | SDPTypeOffer => isRemoteOfferRestartICE t sd
            | SDPTypeAnswer => Ok ("", false) end) as [[cred restart]|e]; [|exact Hinv].
  destruct (restart && _).
  { unfold OfferInv in *. simpl_transport. exact Hinv. }
  destruct (pcSetRemoteDescription st (pc t) sd) as [p|] eqn:Hp.
  2: { cbn [offerScan andb]. exact Hinv. }
  assert (Hpend : isAnswer sd = false -> pend = false).
  { intros Ha. destruct pend; [|reflexivity]. destruct (H3 eq_refl) as [_ Hs].
    unfold isAnswer in Ha. unfold pcSetRemoteDescription in Hp. rewrite Hs in Hp.
    destruct (sdType sd); [|discriminate].
    destruct (setRemoteDescriptionOk st (pc t) sd); discriminate. }
  destruct (_ || restart); simpl_transport;
    pose proof (addPendingCandidates_scan st p (pendingCandidates t)) as Hs;
    destruct (addPendingCandidates st p (pendingCandidates t)) as [[e|] evc]; cbn [snd] in Hs;
    cbv beta iota zeta; simpl_transport.
  all: assert (Hfresh : forall u, restartAtNextOffer u = false -> restartAfterGathering u = false ->
                 OfferInv false u) by (intros u Hu1 Hu2; split; [exact Hu1 | split; [exact Hu2 | discriminate]]).
  all: destruct (sdType sd) eqn:Ht; unfold isAnswer in Hpend; rewrite Ht in Hpend.
  all: try (specialize (Hpend eq_refl); subst pend).
  all: try (destruct (negotiationState t));
    lazymatch goal with
    | |- context [createAndSendOffer ?s None ?t0] =>
        pose proof (createAndSendOffer_offerInv s None false t0 eq_refl) as Hc;
        destruct (createAndSendOffer s None t0) as [[r4 t4] evo]
    | _ => idtac
    end; cbv beta iota zeta; simpl_transport.
  all: try (destruct (onRemoteDescripitonSettled _) as [[e'|]|]); cbv beta iota zeta.
  all: cbn [app offerScan andb]; unfold isAnswer; rewrite ?Ht; cbv beta iota; rewrite ?offerScan_app, ?Hs.
  all: try (apply Hfresh; simpl_transport; assumption).
  all: unfold scanInv in Hc;
    match type of Hc with
    | OfferInv false ?u -> _ =>
        assert (Hu : OfferInv false u) by (apply Hfresh; simpl_transport; assumption)
    end;
    specialize (Hc Hu); destruct (offerScan false evo); cbn; assumption.
Qed.

Ltac keep_inv := unfold scanInv, OfferInv in *; cbn [offerScan] in *; simpl_transport; assumption.

Lemma step_offerInv (st : Stack) (op : Op) (pend : bool) (t : PCTransport) :
  allowedOp op = true -> OfferInv pend t ->
  let '(t', evs) := step st op t in scanInv pend t' evs.
Proof.
  intros Hop Hinv. pose proof Hinv as (H1 & H2 & H3).
  destruct op as [force| |options|sd|c| | |n]; cbn [step allowedOp] in *.
  - unfold Negotiate. destruct force.
    + pose proof (createAndSendOffer_offerInv st None pend (set_debounced t (Some DebouncedNoop))
                    eq_refl) as Hc.
      destruct (createAndSendOffer st None (set_debounced t (Some DebouncedNoop))) as [[r t'] evs].
      apply Hc. keep_inv.
    + keep_inv.
  - unfold debounceFire. destruct (debounced t) as [[|]|];
      [ .. | keep_inv];
      lazymatch goal with
      | |- context [createAndSendOffer ?s None ?u] =>
          pose proof (createAndSendOffer_offerInv s None pend u eq_refl) as Hc;
          destruct (createAndSendOffer s None u) as [[r t'] evs]; apply Hc; keep_inv
      | _ => keep_inv
      end.
  - pose proof (createAndSendOffer_offerInv st options pend t Hop Hinv) as Hc.
    destruct (createAndSendOffer st options t) as [[r t'] evs]. exact Hc.
  - pose proof (SetRemoteDescription_offerInv st sd pend t Hinv) as Hc.
    destruct (SetRemoteDescription st sd t) as [[r t'] evs]. exact Hc.
  - unfold AddICECandidate. destruct (RemoteDescription (pc t)); [destruct (addICECandidateOk st (pc t) c)|];
      keep_inv.
  - keep_inv.
  - unfold onGatheringComplete. simpl_transport. rewrite H2.
    destruct (pendingRestartIceOffer t) as [o|].
    + assert (Hi : OfferInv pend (set_pendingRestartIceOffer
                   (set_pc t (pcSetGathering (pc t) ICEGatheringStateComplete)) None)).
      { unfold OfferInv in *. simpl_transport. exact Hinv. }
      pose proof (SetRemoteDescription_offerInv st o pend _ Hi) as Hc.
      destruct (SetRemoteDescription st o _) as [[r t'] evs]. exact Hc.
    + keep_inv.
  - unfold scanInv, failureTimerFire.
    destruct (_ && _); [destruct (onNegotiationFailed t)|]; keep_inv.
Qed.

Lemma run_offerInv (st : Stack) (ops : list Op) :
  forall (pend : bool) (t : PCTransport),
  Forall (fun op => allowedOp op = true) ops -> OfferInv pend t ->
  let '(t', evs) := run st ops t in scanInv pend t' evs.
Proof.
  induction ops as [|op ops IH]; intros pend t Hops Hinv; cbn [run].
  - keep_inv.
  - inversion Hops as [|? ? Hop Hrest]; subst.
    pose proof (step_offerInv st op pend t Hop Hinv) as Hs.
    destruct (step st op t) as [t1 evs1].
    unfold scanInv in Hs. destruct (offerScan pend evs1) as [p1|] eqn:Hp1; [|contradiction].
    pose proof (IH p1 t1 Hrest Hs) as Hr.
    destruct (run st ops t1) as [t2 evs2].
    unfold scanInv in *. rewrite offerScan_app, Hp1. exact Hr.
Qed.

(** C1: along any run of operations on one transport (Negotiate, the
    debouncer, createAndSendOffer without a requested ICE restart,
    SetRemoteDescription, candidates, gathering and the failure timer),
    started with no ICE restart scheduled, a second local offer is never
    sent while one is outstanding: between two [OnOfferCalled] events an
    answer is always applied. When an offer is outstanding at the end, the
    negotiation state is not Idle and the pc is in have-local-offer. *)
Theorem at_most_one_outstanding_offer (st : Stack) (ops : list Op) (t : PCTransport)
  (H1 : restartAtNextOffer t = false) (H2 : restartAfterGathering t = false)
  (Hops : Forall (fun op => allowedOp op = true) ops) :
  let '(t', evs) := run st ops t in
  match offerScan false evs with
  | Some pend =>
      pend = true -> (negotiationState t' <> negotiationStateNone /\ signalingState (pc t') = SignalingStateHaveLocalOffer)
  | None => False
  end.
Proof.
  assert (Hi : OfferInv false t).
  { split; [exact H1 | split; [exact H2 | discriminate]]. }
  pose proof (run_offerInv st ops false t Hops Hi) as Hr.
  destruct (run st ops t) as [t' evs]. unfold scanInv in Hr.
  destruct (offerScan false evs) as [pend|]; [|exact Hr].
  destruct Hr as (_ & _ & Hp). exact Hp.
Qed.

(** C1 witness: two forced negotiations and the answer to the first offer;
    the second offer waits for the answer. *)
Lemma at_most_one_outstanding_offer_witness :
  restartAtNextOffer freshTransport = false /\ restartAfterGathering freshTransport = false /\
  Forall (fun op => allowedOp op = true)
    [OpNegotiate true; OpNegotiate true; OpSetRemoteDescription (answerNo 1)] /\
  let '(t', evs) := run permissiveStack
        [OpNegotiate true; OpNegotiate true; OpSetRemoteDescription (answerNo 1)] freshTransport in
  match offerScan false evs with
  | Some pend =>
      pend = true -> (negotiationState t' <> negotiationStateNone /\ signalingState (pc t') = SignalingStateHaveLocalOffer)
  | None => False
  end.
Proof.
  split; [reflexivity|]. split; [reflexivity|]. split; [repeat constructor|].
  apply (at_most_one_outstanding_offer permissiveStack
           [OpNegotiate true; OpNegotiate true; OpSetRemoteDescription (answerNo 1)] freshTransport);
    [reflexivity | reflexivity | repeat constructor].
Defined.

(* ================================================================== *)
(** * Further properties of the transport and the aggregator *)

Lemma existsb_neq_false (x : string) (l : list string) :
  existsb (fun m => negb (String.eqb m x)) l = false <-> Forall (fun m => m = x) l.
Proof.
  induction l as [|a l IH]; cbn; [split; auto|].
  rewrite orb_false_iff, IH, negb_false_iff, String.eqb_eq.
  split; [intros [-> H]; constructor; auto | intros H; inversion H; auto].
Qed.

Lemma existsb_neq_true (x : string) (l : list string) :
  existsb (fun m => negb (String.eqb m x)) l = true <-> exists g, In g l /\ g <> x.
Proof.
  rewrite existsb_exists. split.
  - intros [g [Hin Hg]]. exists g. split; [exact Hin|].
    apply negb_true_iff, String.eqb_neq in Hg. exact Hg.
  - intros [g [Hin Hg]]. exists g. split; [exact Hin|].
    apply negb_true_iff, String.eqb_neq. exact Hg.
Qed.

(** X1: extractICECredential fails with the missing-ufrag error when no ice-ufrag is collected, with the missing-pwd error when ufrags but no ice-pwd are collected, with the conflicting-ufrag error when two ufrags differ, with the conflicting-pwd error when the ufrags agree but two pwds differ, and returns Ok (ufrag, pwd) exactly when both lists are non-empty, every collected ufrag is ufrag and every collected pwd is pwd. *)
Theorem extractICECredential_result (desc : sdp.SessionDescription) :
  let ufrags := collectAttr "ice-ufrag" desc in
  let pwds := collectAttr "ice-pwd" desc in
  (ufrags = [] -> extractICECredential desc = Err ErrSessionDescriptionMissingIceUfrag) /\
  (ufrags <> [] -> pwds = [] -> extractICECredential desc = Err ErrSessionDescriptionMissingIcePwd) /\
  (forall u0 p0 us ps, ufrags = u0 :: us -> pwds = p0 :: ps ->
     ((exists g, In g us /\ g <> u0) ->
        extractICECredential desc = Err ErrSessionDescriptionConflictingIceUfrag) /\
     (Forall (fun g => g = u0) us -> (exists g, In g ps /\ g <> p0) ->
        extractICECredential desc = Err ErrSessionDescriptionConflictingIcePwd)) /\
  (forall ufrag pwd,
     extractICECredential desc = Ok (ufrag, pwd) <->
     (ufrags <> [] /\ Forall (fun g => g = ufrag) ufrags) /\
     (pwds <> [] /\ Forall (fun g => g = pwd) pwds)).
Proof.
  cbv zeta. unfold extractICECredential.
  destruct (collectAttr "ice-ufrag" desc) as [|u0 us] eqn:Hu;
  destruct (collectAttr "ice-pwd" desc) as [|p0 ps] eqn:Hp.
  - split; [reflexivity|]. split; [congruence|]. split; [intros; discriminate|].
    intros u p. split; [discriminate | intros [[H _] _]; congruence].
  - split; [reflexivity|]. split; [congruence|]. split; [intros; discriminate|].
    intros u p. split; [discriminate | intros [[H _] _]; congruence].
  - split; [discriminate|]. split; [reflexivity|]. split; [intros; discriminate|].
    intros u p. split; [discriminate | intros [_ [H _]]; congruence].
  - cbn [existsb]. rewrite !String.eqb_refl. cbn [negb orb].
    split; [discriminate|]. split; [congruence|]. split.
    + intros u1 p1 us1 ps1 Hu1 Hp1. injection Hu1 as <- <-. injection Hp1 as <- <-. split.
      * intros H. apply existsb_neq_true in H. rewrite H. reflexivity.
      * intros H1 H2. apply existsb_neq_false in H1. apply existsb_neq_true in H2.
        rewrite H1, H2. reflexivity.
    + intros u p.
      destruct (existsb (fun m => negb (m =? u0)) us) eqn:E1.
      { split; [discriminate|]. intros [[_ H] _]. inversion H as [|? ? Hx Hus]; subst.
        apply existsb_neq_true in E1 as [g [Hin Hg]].
        rewrite List.Forall_forall in Hus. exfalso. apply Hg. apply Hus. exact Hin. }
      destruct (existsb (fun m => negb (m =? p0)) ps) eqn:E2.
      { split; [discriminate|]. intros [_ [_ H]]. inversion H as [|? ? Hx Hps]; subst.
        apply existsb_neq_true in E2 as [g [Hin Hg]].
        rewrite List.Forall_forall in Hps. exfalso. apply Hg. apply Hps. exact Hin. }
      apply existsb_neq_false in E1, E2.
      split.
      * intros H. injection H as <- <-.
        split; (split; [discriminate | constructor; [reflexivity | assumption]]).
      * intros [[_ H1] [_ H2]]. inversion H1; inversion H2; subst. reflexivity.
Qed.

Lemma splitSpace_nonempty (s : string) : splitSpace s <> [].
Proof.
  destruct s as [|c s]; cbn; [discriminate|].
  destruct (Ascii.eqb c " "); [discriminate|]. destruct (splitSpace s); discriminate.
Qed.

Lemma splitSpace_concat (s : string) : String.concat " " (splitSpace s) = s.
Proof.
  induction s as [|c s IH]; [reflexivity|]. cbn [splitSpace].
  pose proof (splitSpace_nonempty s) as Hne.
  destruct (Ascii.eqb c " ") eqn:Hc.
  - apply Ascii.eqb_eq in Hc. subst c.
    destruct (splitSpace s) as [|x l]; [congruence|]. cbn. rewrite <- IH. reflexivity.
  - destruct (splitSpace s) as [|x l]; [congruence|].
    destruct l as [|y l]; cbn in *; rewrite <- IH; reflexivity.
Qed.

Lemma splitSpace_pieces (s : string) : Forall (fun x => splitSpace x = [x]) (splitSpace s).
Proof.
  induction s as [|c s IH]; cbn [splitSpace]; [constructor; [reflexivity | constructor]|].
  pose proof (splitSpace_nonempty s) as Hne.
  destruct (Ascii.eqb c " ") eqn:Hc.
  - constructor; [reflexivity | exact IH].
  - destruct (splitSpace s) as [|x l]; [congruence|].
    inversion IH as [|? ? Hx Hl]; subst.
    constructor; [|exact Hl]. cbn. rewrite Hc, Hx. reflexivity.
Qed.

(** X2: when extractFingerprint returns Ok (hash, algorithm), at least one fingerprint was collected, every collected fingerprint is algorithm, a space and hash, and neither part contains a space. *)
Theorem extractFingerprint_roundtrip (desc : sdp.SessionDescription) (hash algorithm : string) :
  extractFingerprint desc = Ok (hash, algorithm) ->
  collectFingerprints desc <> [] /\
  Forall (fun f => f = algorithm ++ " " ++ hash) (collectFingerprints desc) /\
  splitSpace algorithm = [algorithm] /\ splitSpace hash = [hash].
Proof.
  unfold extractFingerprint.
  destruct (collectFingerprints desc) as [|f0 rest] eqn:Hf; [discriminate|].
  destruct (existsb _ _) eqn:E; [discriminate|].
  pose proof (splitSpace_concat f0) as Hc. pose proof (splitSpace_pieces f0) as Hp.
  destruct (splitSpace f0) as [|a [|h [|z l]]]; try discriminate.
  intros H. injection H as <- <-.
  cbn in E. rewrite String.eqb_refl in E. cbn in E. apply existsb_neq_false in E.
  rewrite List.Forall_forall in Hp.
  pose proof (Hp a (or_introl eq_refl)) as Ha. pose proof (Hp h (or_intror (or_introl eq_refl))) as Hh.
  cbn in Hc. split; [discriminate|]. split; [|auto].
  constructor; [symmetry; exact Hc|].
  rewrite List.Forall_forall in E |- *. intros g Hg. rewrite (E g Hg). symmetry. exact Hc.
Qed.

Lemma extractFingerprint_roundtrip_witness :
  let desc := {| sdp.Attributes := [{| sdp.Key := "fingerprint"; sdp.Value := "sha-256 AB:CD" |}];
                 sdp.MediaDescriptions := [] |} in
  extractFingerprint desc = Ok ("AB:CD", "sha-256") /\
  collectFingerprints desc <> [] /\
  Forall (fun f => f = "sha-256" ++ " " ++ "AB:CD") (collectFingerprints desc) /\
  splitSpace "sha-256" = ["sha-256"] /\ splitSpace "AB:CD" = ["AB:CD"].
Proof.
  cbv zeta. split; [vm_compute; reflexivity|].
  apply extractFingerprint_roundtrip. vm_compute. reflexivity.
Defined.

Lemma filter_idem {A} (f : A -> bool) (l : list A) :
  List.filter f (List.filter f l) = List.filter f l.
Proof.
  induction l as [|a l IH]; [reflexivity|]. cbn.
  destruct (f a) eqn:E; cbn; [rewrite E, IH | rewrite IH]; reflexivity.
Qed.

(** X3: filterCandidates is idempotent: filtering an already filtered description changes nothing. *)
Theorem filterCandidates_idempotent (t : PCTransport) (sd : SessionDescription) :
  filterCandidates t (filterCandidates t sd) = filterCandidates t sd.
Proof.
  unfold filterCandidates. destruct (sdParsed sd) as [parsed|] eqn:Hs; cbn; [|rewrite Hs; reflexivity].
  f_equal. f_equal. destruct parsed as [attrs media]. unfold filterParsed. cbn.
  unfold filterAttributes. rewrite filter_idem. f_equal.
  rewrite map_map. apply map_ext. intros m. cbn. rewrite filter_idem. reflexivity.
Qed.

(** X4: extractDTLSRole returns DTLSRoleServer exactly when some media description has setup passive and every media description before it has no setup attribute or one that is neither active nor passive; otherwise it returns DTLSRoleClient. *)
Theorem extractDTLSRole_server (desc : sdp.SessionDescription) :
  extractDTLSRole desc = DTLSRoleServer <->
  exists pre md rest,
    sdp.MediaDescriptions desc = app pre (md :: rest) /\
    Forall setupUndecided pre /\
    sdp.attribute AttrKeyConnectionSetup (sdp.MediaAttributes md) = Some ConnectionRolePassive.
Proof.
  unfold extractDTLSRole. induction (sdp.MediaDescriptions desc) as [|m ms IH]; cbn.
  - split; [discriminate|]. intros (pre & md & rest & H & _). destruct pre; discriminate.
  - unfold setupUndecided at 1.
    destruct (sdp.attribute AttrKeyConnectionSetup (sdp.MediaAttributes m)) as [s|] eqn:Hs.
    + destruct (String.eqb s ConnectionRoleActive) eqn:Ea; [|destruct (String.eqb s ConnectionRolePassive) eqn:Ep].
      * apply String.eqb_eq in Ea. subst s. split; [discriminate|].
        intros ([|p pre] & md & rest & H & Hu & Hm); cbn in H; injection H as <- H.
        -- rewrite Hs in Hm. discriminate.
        -- inversion Hu as [|? ? Hp _]; subst. unfold setupUndecided in Hp. rewrite Hs in Hp.
           destruct Hp as [Hp _]. contradiction.
      * apply String.eqb_eq in Ep. subst s. split; [intros _|reflexivity].
        exists [], m, ms. split; [reflexivity|]. split; [constructor | exact Hs].
      * apply String.eqb_neq in Ea, Ep. rewrite IH. split.
        -- intros (pre & md & rest & H & Hu & Hm). exists (m :: pre), md, rest.
           split; [cbn; rewrite H; reflexivity|]. split; [|exact Hm].
           constructor; [|exact Hu]. unfold setupUndecided. rewrite Hs. auto.
        -- intros ([|p pre] & md & rest & H & Hu & Hm); cbn in H; injection H as <- H.
           ++ rewrite Hs in Hm. injection Hm as Hm. contradiction.
           ++ inversion Hu; subst. exists pre, md, rest. auto.
    + rewrite IH. split.
      * intros (pre & md & rest & H & Hu & Hm). exists (m :: pre), md, rest.
        split; [cbn; rewrite H; reflexivity|]. split; [|exact Hm].
        constructor; [|exact Hu]. unfold setupUndecided. rewrite Hs. exact I.
      * intros ([|p pre] & md & rest & H & Hu & Hm); cbn in H; injection H as <- H.
        -- rewrite Hs in Hm. discriminate.
        -- inversion Hu; subst. exists pre, md, rest. auto.
Qed.

Lemma pcSetLocalDescription_closed (st : Stack) (p p' : PeerConnection) (sd : SessionDescription) :
  pcSetLocalDescription st p sd = Some p' -> connectionClosed p' = connectionClosed p.
Proof.
  unfold pcSetLocalDescription. destruct (setLocalDescriptionOk st p sd), (sdType sd), (signalingState p);
    intros H; try discriminate; injection H as <-; reflexivity.
Qed.

Lemma pcSetRemoteDescription_closed (st : Stack) (p p' : PeerConnection) (sd : SessionDescription) :
  pcSetRemoteDescription st p sd = Some p' -> connectionClosed p' = connectionClosed p.
Proof.
  unfold pcSetRemoteDescription. destruct (setRemoteDescriptionOk st p sd), (sdType sd), (signalingState p);
    intros H; try discriminate; injection H as <-; reflexivity.
Qed.

Ltac pc_closed_facts :=
  repeat match goal with
         | H : pcSetLocalDescription _ _ _ = Some _ |- _ => apply pcSetLocalDescription_closed in H
         | H : pcSetRemoteDescription _ _ _ = Some _ |- _ => apply pcSetRemoteDescription_closed in H
         end.

Lemma createAndSendOffer_frame (st : Stack) (options : option OfferOptions) (t : PCTransport) :
  let '(_, t', _) := createAndSendOffer st options t in
  currentOfferIceCredential t' = currentOfferIceCredential t /\
  debounced t' = debounced t /\
  onOffer t' = onOffer t /\
  preferTCP t' = preferTCP t /\
  connectionClosed (pc t') = connectionClosed (pc t).
Proof.
  unfold createAndSendOffer, offerPrecheck, offerCreate.
  destruct_matches; simpl_transport; pc_closed_facts; repeat split; congruence.
Qed.

(** X5: SetRemoteDescription changes currentOfferIceCredential only when the peer-connection accepts the description, never for an answer, and for an accepted parsed offer it becomes the offer's ufrag, a colon and its pwd. *)
Theorem SetRemoteDescription_credential (st : Stack) (sd : SessionDescription) (t : PCTransport) :
  let '(_, t', evs) := SetRemoteDescription st sd t in
  (hd_error evs <> Some (PcSetRemoteDescription sd true) ->
     currentOfferIceCredential t' = currentOfferIceCredential t) /\
  (sdType sd = SDPTypeAnswer -> currentOfferIceCredential t' = currentOfferIceCredential t) /\
  (forall parsed ufrag pwd,
     sdType sd = SDPTypeOffer -> sdParsed sd = Some parsed ->
     extractICECredential parsed = Ok (ufrag, pwd) ->
     hd_error evs = Some (PcSetRemoteDescription sd true) ->
     currentOfferIceCredential t' = ufrag ++ ":" ++ pwd).
Proof.
  unfold SetRemoteDescription.
  destruct (match sdType sd with
            | SDPTypeOffer => isRemoteOfferRestartICE t sd
            | SDPTypeAnswer => Ok ("", false) end) as [[cred restart]|e] eqn:Hck.
  2: { split; [reflexivity|]. split; [reflexivity|]. intros; discriminate. }
  destruct (restart && _).
  { split; [reflexivity|]. split; [reflexivity|]. intros; discriminate. }
  destruct (pcSetRemoteDescription st (pc t) sd) as [p|] eqn:Hp.
  2: { split; [reflexivity|]. split; [reflexivity|]. intros ? ? ? _ _ _ H; discriminate. }
  assert (Hcred : (sdType sd = SDPTypeAnswer ->
                   (if String.eqb (currentOfferIceCredential t) "" || restart
                    then cred else currentOfferIceCredential t) = currentOfferIceCredential t) /\
                  (forall parsed ufrag pwd,
                   sdType sd = SDPTypeOffer -> sdParsed sd = Some parsed ->
                   extractICECredential parsed = Ok (ufrag, pwd) ->
                   (if String.eqb (currentOfferIceCredential t) "" || restart
                    then cred else currentOfferIceCredential t) = ufrag ++ ":" ++ pwd)).
  { split.
    - intros Ha. rewrite Ha in Hck. injection Hck as <- <-. rewrite orb_false_r.
      destruct (String.eqb_spec (currentOfferIceCredential t) ""); congruence.
    - intros parsed u pw Ho Hs He. rewrite Ho in Hck. unfold isRemoteOfferRestartICE in Hck.
      rewrite Hs, He in Hck. injection Hck as <- <-.
      destruct (String.eqb_spec (currentOfferIceCredential t) "") as [E|E]; [reflexivity|].
      destruct (String.eqb_spec (currentOfferIceCredential t) (u ++ ":" ++ pw)) as [E'|E'];
        cbn; [exact E' | reflexivity]. }
  simpl_transport.
  destruct (String.eqb (currentOfferIceCredential t) "" || restart) eqn:Hcr;
    cbv iota in Hcred |- *; simpl_transport.
  all: lazymatch goal with
       | |- context [addPendingCandidates ?s ?p0 ?q] =>
           destruct (addPendingCandidates s p0 q) as [[e|] evc]
       end; cbv beta iota zeta; simpl_transport.
  all: destruct (negotiationState t); destruct (sdType sd) eqn:Ht;
    lazymatch goal with
    | |- context [createAndSendOffer ?s None ?t0] =>
        pose proof (createAndSendOffer_frame s None t0) as Hf;
        destruct (createAndSendOffer s None t0) as [[r4 t4] evo];
        destruct Hf as [Hf _]; simpl_transport
    | _ => idtac
    end; cbv beta iota zeta; simpl_transport.
  all: try (destruct (onRemoteDescripitonSettled _) as [[e'|]|]).
  all: cbn [hd_error app]; destruct Hcred as [Hc1 Hc2].
  all: split; [intros Hh; exfalso; apply Hh; reflexivity|].
  all: split; [intros Ha; try discriminate; try rewrite ?Hf; apply Hc1; reflexivity|].
  all: intros parsed u pw Ho Hs He _; try discriminate; rewrite ?Hf; exact (Hc2 parsed u pw eq_refl Hs He).
Qed.

(** X6: when the peer-connection does not accept the description, SetRemoteDescription either fails leaving the transport unchanged (with at most the one rejected peer-connection call), or succeeds only by deferring the offer into pendingRestartIceOffer without any call. *)
Theorem SetRemoteDescription_not_accepted (st : Stack) (sd : SessionDescription) (t : PCTransport) :
  let '(r, t', evs) := SetRemoteDescription st sd t in
  hd_error evs <> Some (PcSetRemoteDescription sd true) ->
  (t' = t /\ (evs = [] \/ evs = [PcSetRemoteDescription sd false]) /\ exists e, r = Err e) \/
  (r = Ok tt /\ evs = [] /\ t' = set_pendingRestartIceOffer t (Some sd)).
Proof.
  unfold SetRemoteDescription.
  destruct (match sdType sd with
            | SDPTypeOffer => isRemoteOfferRestartICE t sd
            | SDPTypeAnswer => Ok ("", false) end) as [[cred restart]|e].
  2: { intros _. left. split; [reflexivity|]. split; [left; reflexivity | eexists; reflexivity]. }
  destruct (restart && _).
  { intros _. right. auto. }
  destruct (pcSetRemoteDescription st (pc t) sd) as [p|].
  2: { intros _. left. split; [reflexivity|]. split; [right; reflexivity | eexists; reflexivity]. }
  destruct (_ || restart); cbv iota; simpl_transport.
  all: lazymatch goal with
       | |- context [addPendingCandidates ?s ?p0 ?q] =>
           destruct (addPendingCandidates s p0 q) as [[e|] evc]
       end; cbv beta iota zeta; simpl_transport.
  all: destruct (negotiationState t); destruct (sdType sd);
    lazymatch goal with
    | |- context [createAndSendOffer ?s None ?t0] =>
        destruct (createAndSendOffer s None t0) as [[r4 t4] evo]
    | _ => idtac
    end; cbv beta iota zeta.
  all: try (destruct (onRemoteDescripitonSettled _) as [[e'|]|]).
  all: cbn [hd_error app]; intros Hh; exfalso; apply Hh; reflexivity.
Qed.

(** X7: after the peer-connection accepts a remote description, unless it is an answer in the retry state, the negotiation state is Idle, the failure timer is disarmed, and a failure timer of any epoch firing then does nothing. *)
Theorem SetRemoteDescription_settles_failure_timer (st : Stack) (sd : SessionDescription)
  (t : PCTransport) :
  let '(_, t', evs) := SetRemoteDescription st sd t in
  hd_error evs = Some (PcSetRemoteDescription sd true) ->
  negotiationState t <> negotiationRetry \/ sdType sd = SDPTypeOffer ->
  negotiationState t' = negotiationStateNone /\ signalStateCheckTimer t' = None /\
  forall n, failureTimerFire n t' = [].
Proof.
  unfold SetRemoteDescription.
  destruct (match sdType sd with
            | SDPTypeOffer => isRemoteOfferRestartICE t sd
            | SDPTypeAnswer => Ok ("", false) end) as [[cred restart]|e].
  2: { intros H; discriminate. }
  destruct (restart && _).
  { intros H; discriminate. }
  destruct (pcSetRemoteDescription st (pc t) sd) as [p|].
  2: { intros H; injection H as H; discriminate. }
  destruct (_ || restart); cbv iota; simpl_transport.
  all: lazymatch goal with
       | |- context [addPendingCandidates ?s ?p0 ?q] =>
           destruct (addPendingCandidates s p0 q) as [[e|] evc]
       end; cbv beta iota zeta; simpl_transport.
  all: destruct (negotiationState t); destruct (sdType sd);
    lazymatch goal with
    | |- context [createAndSendOffer ?s None ?t0] =>
        destruct (createAndSendOffer s None t0) as [[r4 t4] evo]
    | _ => idtac
    end; cbv beta iota zeta; simpl_transport.
  all: try (destruct (onRemoteDescripitonSettled _) as [[e'|]|]).
  all: intros _ Hs; try (destruct Hs as [Hs|Hs]; [exfalso; apply Hs; reflexivity | discriminate Hs]).
  all: split; [reflexivity|]; split; [reflexivity|]; intros n;
    unfold failureTimerFire; simpl_transport; cbn [isNegotiationStateNone negb];
    rewrite andb_false_r; reflexivity.
Qed.

Lemma pcSetLocalDescription_local (st : Stack) (p p' : PeerConnection) (sd : SessionDescription) :
  pcSetLocalDescription st p sd = Some p' ->
  localDescription p' = Some sd /\ signalingState p' = SignalingStateHaveLocalOffer.
Proof.
  unfold pcSetLocalDescription. destruct (setLocalDescriptionOk st p sd), (sdType sd), (signalingState p);
    intros H; try discriminate; injection H as <-; auto.
Qed.

(** X8: whenever createAndSendOffer sets a local offer o, it returns success, its calls end with setting o and calling onOffer with o, o is the local description in have-local-offer, the state is Client, both restart flags and the previous answer are cleared, and the negotiation-pending set is emptied. *)
Theorem createAndSendOffer_offer_made (st : Stack) (options : option OfferOptions) (t : PCTransport) :
  let '(r, t', evs) := createAndSendOffer st options t in
  forall o, In (PcSetLocalDescription o true) evs ->
  r = Ok tt /\ (exists pre, evs = app pre [PcSetLocalDescription o true; OnOfferCalled o]) /\
  localDescription (pc t') = Some o /\ signalingState (pc t') = SignalingStateHaveLocalOffer /\
  negotiationState t' = negotiationStateClient /\ restartAfterGathering t' = false /\
  restartAtNextOffer t' = false /\ previousAnswer t' = None /\ negotiationPending t' = ∅.
Proof.
  unfold createAndSendOffer, offerPrecheck, offerCreate.
  destruct_matches; simpl_transport; intros ?o Hin;
    repeat (rewrite in_app_iff in Hin || (progress cbn [In] in Hin));
    try (exfalso; intuition discriminate).
  all: match goal with
       | H : pcSetLocalDescription _ _ _ = Some _ |- _ => apply pcSetLocalDescription_local in H as [Hl Hs]
       end.
  all: repeat match goal with H : _ \/ _ |- _ => destruct H as [H|H] end;
       try discriminate; try contradiction.
  all: match goal with H : PcSetLocalDescription _ _ = PcSetLocalDescription _ _ |- _ =>
         injection H as <- end.
  all: repeat split; try congruence;
       first [ exists []; reflexivity
             | match goal with |- exists pre, ?x :: _ = _ => exists [x]; reflexivity end ].
Qed.

(** X9: AddNegotiationPending marks exactly its publisher as pending; an offer made by createAndSendOffer clears every pending mark, and an attempt that makes no offer leaves the marks unchanged. *)
Theorem negotiationPending_lifecycle (st : Stack) (options : option OfferOptions) (t : PCTransport)
  (publisherID : string) :
  IsNegotiationPending publisherID (AddNegotiationPending publisherID t) = true /\
  (forall other, other <> publisherID ->
     IsNegotiationPending other (AddNegotiationPending publisherID t) = IsNegotiationPending other t) /\
  let '(_, t', evs) := createAndSendOffer st options t in
  (producesOffer evs -> forall id, IsNegotiationPending id t' = false) /\
  (~ producesOffer evs -> negotiationPending t' = negotiationPending t).
Proof.
  split; [|split].
  - unfold IsNegotiationPending, AddNegotiationPending. cbn. apply bool_decide_true. set_solver.
  - intros other Hne. unfold IsNegotiationPending, AddNegotiationPending. cbn.
    apply bool_decide_ext. set_solver.
  - unfold createAndSendOffer, offerPrecheck, offerCreate, producesOffer.
    destruct_matches; simpl_transport; split;
      try (intros [?o Ho]; repeat (rewrite in_app_iff in Ho || (progress cbn [In] in Ho));
           exfalso; intuition discriminate);
      try (intros _ id; unfold IsNegotiationPending; simpl_transport;
           apply bool_decide_false; set_solver);
      try (intros _; reflexivity);
      intros Hn; exfalso; apply Hn; eexists;
      repeat (rewrite in_app_iff || cbn [In]); repeat (first [left; reflexivity | right]).
Qed.

Lemma createAndSendOffer_closed (st : Stack) (options : option OfferOptions) (t : PCTransport) :
  connectionClosed (pc t) = true -> createAndSendOffer st options t = (Ok tt, t, []).
Proof.
  intros Hc. unfold createAndSendOffer. rewrite Hc. destruct (onOffer t); reflexivity.
Qed.

Lemma addPendingCandidates_no_offer (st : Stack) (p : PeerConnection) (cs : list ICECandidateInit) :
  Forall (fun e => isOfferEvent e = false) (snd (addPendingCandidates st p cs)).
Proof.
  induction cs as [|c rest IH]; cbn; [constructor|].
  destruct (addICECandidateOk st p c); [|repeat constructor].
  destruct (addPendingCandidates st p rest) as [r evs]. cbn in *. constructor; auto.
Qed.

Lemma SetRemoteDescription_closed (st : Stack) (sd : SessionDescription) (t : PCTransport) :
  connectionClosed (pc t) = true ->
  let '(_, t', evs) := SetRemoteDescription st sd t in
  connectionClosed (pc t') = true /\ Forall (fun e => isOfferEvent e = false) evs.
Proof.
  intros Hc. unfold SetRemoteDescription. cbv zeta.
  lazymatch goal with |- context [match ?c with Ok _ => _ | Err _ => _ end] =>
    destruct c as [[cred rst]|e] end; [|split; [exact Hc|constructor]].
  destruct (rst && isGathering (iceGatheringState (pc t))); [cbn; split; [exact Hc|constructor]|].
  destruct (pcSetRemoteDescription st (pc t) sd) as [p|] eqn:Hp;
    [|split; [exact Hc|repeat constructor]].
  apply pcSetRemoteDescription_closed in Hp. rewrite Hc in Hp.
  destruct (_ || rst); cbv iota; simpl_transport;
  pose proof (addPendingCandidates_no_offer st p (pendingCandidates t)) as Ha;
  destruct (addPendingCandidates st p (pendingCandidates t)) as [[e|] evc]; cbn in Ha;
  cbv beta iota zeta; simpl_transport;
  try (split; [exact Hp|constructor; [reflexivity|exact Ha]]).
  all: destruct (negotiationState t), (sdType sd); cbv beta iota zeta;
    try (rewrite createAndSendOffer_closed by (simpl_transport; exact Hp); cbv beta iota zeta);
    simpl_transport;
    try (destruct (onRemoteDescripitonSettled t) as [[e'|]|]); cbn [connectionClosed pc];
    (split; [exact Hp|]);
    repeat (rewrite Forall_app || rewrite Forall_cons); rewrite ?app_nil_r;
    repeat split; auto.
Qed.

Lemma step_closed (st : Stack) (op : Op) (t : PCTransport) :
  connectionClosed (pc t) = true ->
  connectionClosed (pc (fst (step st op t))) = true /\
  Forall (fun e => isOfferEvent e = false) (snd (step st op t)).
Proof.
  intros Hc. destruct op as [force| |options|sd|c| | |n]; cbn [step].
  - unfold Negotiate. destruct force.
    + rewrite createAndSendOffer_closed by exact Hc. cbn. auto.
    + cbn. auto.
  - unfold debounceFire. destruct (debounced t) as [[|]|]; cbn; auto.
    rewrite createAndSendOffer_closed by exact Hc. cbn. auto.
  - rewrite createAndSendOffer_closed by exact Hc. cbn. auto.
  - pose proof (SetRemoteDescription_closed st sd t Hc) as H.
    destruct (SetRemoteDescription st sd t) as [[r t'] evs]. exact H.
  - unfold AddICECandidate. destruct (RemoteDescription (pc t)); cbn; auto.
    destruct (addICECandidateOk st (pc t) c); cbn; auto.
  - cbn. auto.
  - unfold onGatheringComplete. cbv zeta. simpl_transport.
    destruct (restartAfterGathering t).
    + rewrite createAndSendOffer_closed by exact Hc. cbn. auto.
    + destruct (pendingRestartIceOffer t) as [offer|]; [|cbn; auto].
      lazymatch goal with |- context [SetRemoteDescription st offer ?t0] =>
        pose proof (SetRemoteDescription_closed st offer t0 Hc) as H;
        destruct (SetRemoteDescription st offer t0) as [[r t'] evs] end.
      exact H.
  - unfold failureTimerFire. cbn [fst snd]. split; [exact Hc|].
    destruct (_ && _); [destruct (onNegotiationFailed t)|]; repeat constructor.
Qed.

Lemma run_closed (st : Stack) (ops : list Op) (t : PCTransport) :
  connectionClosed (pc t) = true ->
  connectionClosed (pc (fst (run st ops t))) = true /\
  Forall (fun e => isOfferEvent e = false) (snd (run st ops t)).
Proof.
  revert t. induction ops as [|op rest IH]; intros t Hc; cbn [run]; [cbn; auto|].
  pose proof (step_closed st op t Hc) as [H1 H2].
  destruct (step st op t) as [t1 evs1]. cbn in H1, H2.
  pose proof (IH t1 H1) as [H3 H4].
  destruct (run st rest t1) as [t2 evs2]. cbn in *. split; [exact H3|].
  apply Forall_app. auto.
Qed.

(** X13: Close disarms the failure timer, and after it no sequence of operations sets a local offer or calls onOffer, and the connection stays closed. *)
Theorem Close_no_more_offers (st : Stack) (ops : list Op) (t : PCTransport) :
  signalStateCheckTimer (Close t) = None /\
  connectionClosed (pc (fst (run st ops (Close t)))) = true /\
  Forall (fun e => isOfferEvent e = false) (snd (run st ops (Close t))).
Proof.
  split; [reflexivity|]. apply run_closed. reflexivity.
Qed.

(** X14: SetPreviousAnswer records an answer only when there is no remote description and no previous answer, so a second call after a recorded one changes nothing. *)
Theorem SetPreviousAnswer_first_wins
  (initPC : PeerConnection -> SessionDescription -> PeerConnection)
  (a1 a2 : SessionDescription) (t : PCTransport) :
  SetPreviousAnswer initPC a2 (SetPreviousAnswer initPC a1 t) = SetPreviousAnswer initPC a1 t /\
  previousAnswer (SetPreviousAnswer initPC a1 t) =
    match RemoteDescription (pc t), previousAnswer t with
    | None, None => Some a1
    | _, _ => previousAnswer t
    end.
Proof.
  unfold SetPreviousAnswer.
  destruct (RemoteDescription (pc t)) eqn:Hr, (previousAnswer t) eqn:Hp; simpl_transport;
    rewrite ?Hr, ?Hp; auto.
  destruct (RemoteDescription (initPC (pc t) a1)); auto.
Qed.

(** X11: a forced Negotiate cancels a pending debounced one: unforced Negotiate, forced Negotiate and the debounce timer together make exactly the one offer attempt of the forced call. *)
Theorem Negotiate_force_cancels (st : Stack) (t : PCTransport) :
  run st [OpNegotiate false; OpNegotiate true; OpDebounceFire] t =
  let '(_, t', evs) := createAndSendOffer st None (set_debounced t (Some DebouncedNoop)) in
  (set_debounced t' None, evs).
Proof.
  cbn [run step]. unfold Negotiate at 1. cbv iota.
  unfold Negotiate. cbv iota zeta.
  assert (Hs : set_debounced (set_debounced t (Some DebouncedCreateAndSendOffer)) (Some DebouncedNoop)
               = set_debounced t (Some DebouncedNoop)) by reflexivity.
  rewrite Hs.
  pose proof (createAndSendOffer_frame st None (set_debounced t (Some DebouncedNoop))) as Hf.
  destruct (createAndSendOffer st None (set_debounced t (Some DebouncedNoop))) as [[r t'] evs].
  destruct Hf as (_ & Hd & _). cbn in Hd.
  cbn [run]. unfold debounceFire. rewrite Hd. cbn. rewrite app_nil_r. reflexivity.
Qed.

(** X12: any positive number of unforced Negotiate calls followed by the debounce timer make exactly one offer attempt. *)
Theorem Negotiate_debounce_coalesce (st : Stack) (k : nat) (t : PCTransport) (Hk : 0 < k) :
  run st (app (repeat (OpNegotiate false) k) [OpDebounceFire]) t =
  let '(_, t', evs) := createAndSendOffer st None (set_debounced t None) in (t', evs).
Proof.
  destruct k as [|k]; [lia|]. clear Hk. revert t.
  induction k as [|k IH]; intros t.
  - cbn [repeat app run step Negotiate]. unfold debounceFire. cbn [debounced set_debounced].
    destruct (createAndSendOffer st None _) as [[r t'] evs]. cbn. rewrite !app_nil_r. reflexivity.
  - change (repeat (OpNegotiate false) (S (S k)))
      with (OpNegotiate false :: repeat (OpNegotiate false) (S k)).
    cbn [app run step Negotiate].
    rewrite (IH (set_debounced t (Some DebouncedCreateAndSendOffer))).
    destruct (createAndSendOffer st None _) as [[r t'] evs]. reflexivity.
Qed.

Lemma Negotiate_debounce_coalesce_witness :
  0 < 2 /\
  run permissiveStack (app (repeat (OpNegotiate false) 2) [OpDebounceFire]) freshTransport =
  let '(_, t', evs) := createAndSendOffer permissiveStack None (set_debounced freshTransport None) in (t', evs).
Proof.
  split; [lia|]. apply (Negotiate_debounce_coalesce permissiveStack 2 freshTransport). lia.
Defined.

(** X10: an offer attempt from the Idle state that is not deferred by gathering consumes the previous answer and restartAtNextOffer even when it fails, and any offer it sends is the filtered offer created with ICE restart requested by the options, a previous answer or restartAtNextOffer. *)
Theorem offer_attempt_consumes_restart (st : Stack) (options : option OfferOptions) (t : PCTransport)
  (Ho : onOffer t = true) (Hc : connectionClosed (pc t) = false)
  (Hs : negotiationState t = negotiationStateNone)
  (Hg : iceRestartRequested options t && isGathering (iceGatheringState (pc t)) = false) :
  let restart := match options with Some o => ICERestart o | None => false end ||
                 match previousAnswer t with Some _ => true | None => false end || restartAtNextOffer t in
  let '(_, t', evs) := createAndSendOffer st options t in
  previousAnswer t' = None /\ restartAtNextOffer t' = false /\
  forall o, In (OnOfferCalled o) evs ->
    exists offer, createOffer st (pc t) restart = Some offer /\ o = filterCandidates t offer.
Proof.
  unfold createAndSendOffer. fold (iceRestartRequested options t).
  rewrite Ho, Hc, Hg. cbv beta iota zeta.
  unfold offerPrecheck. rewrite Hs. cbn [isNegotiationStateNone negb]. rewrite andb_false_r.
  cbv iota. unfold offerCreate.
  destruct (previousAnswer t) as [pa|] eqn:Hpa; cbv beta iota zeta; simpl_transport;
  destruct (restartAtNextOffer t) eqn:Hr; cbv beta iota zeta; simpl_transport;
  lazymatch goal with |- context [createOffer st (pc t) ?b] =>
    destruct (createOffer st (pc t) b) as [offer|] eqn:Hco end;
  cbv beta iota zeta; simpl_transport;
  try (split; [first [reflexivity|assumption]|(split; [first [reflexivity|assumption]|intros ? []])]);
  lazymatch goal with |- context [pcSetLocalDescription st (pc t) ?o] =>
    destruct (pcSetLocalDescription st (pc t) o) as [p|] end;
  cbv beta iota zeta; simpl_transport;
  (split; [first [reflexivity|assumption]|split; [first [reflexivity|assumption]|]]);
  intros o Hin; cbn in Hin;
  repeat match goal with H : _ \/ _ |- _ => destruct H as [H|H] end;
  try discriminate; try contradiction;
  injection Hin as <-;
  exists offer; (split; [rewrite <- Hco; f_equal; destruct options as [[[|]]|]; reflexivity|]);
  unfold filterCandidates; simpl_transport; reflexivity.
Qed.

Lemma offer_attempt_consumes_restart_witness :
  let t := set_previousAnswer freshTransport (Some (answerNo 1)) in
  onOffer t = true /\ connectionClosed (pc t) = false /\
  negotiationState t = negotiationStateNone /\
  iceRestartRequested None t && isGathering (iceGatheringState (pc t)) = false /\
  let restart := match @None OfferOptions with Some o => ICERestart o | None => false end ||
                 match previousAnswer t with Some _ => true | None => false end ||
                 restartAtNextOffer t in
  let '(_, t', evs) := createAndSendOffer permissiveStack None t in
  previousAnswer t' = None /\ restartAtNextOffer t' = false /\
  forall o, In (OnOfferCalled o) evs ->
    exists offer, createOffer permissiveStack (pc t) restart = Some offer /\ o = filterCandidates t offer.
Proof.
  cbv zeta. split; [reflexivity|]. split; [reflexivity|]. split; [reflexivity|]. split; [reflexivity|].
  apply (offer_attempt_consumes_restart permissiveStack None
           (set_previousAnswer freshTransport (Some (answerNo 1)))); reflexivity.
Defined.

Lemma updateQualityChange_fst (d : DynacastQuality) :
  fst (updateQualityChange d) =
  mkDQ true (maxSubscriberQuality d) (maxSubscriberNodeQuality d) (recomputeQuality d) d.
Proof.
  unfold updateQualityChange.
  destruct (VideoQuality_eqb (recomputeQuality d) (maxSubscribedQuality d)) eqn:Heq;
    destruct (initialized d) eqn:Hi; cbn; try reflexivity.
  apply VideoQuality_eqb_spec in Heq. rewrite Heq. destruct d; cbn in *. subst. reflexivity.
Qed.

Lemma updateQualityChange_again (d : DynacastQuality) :
  updateQualityChange (fst (updateQualityChange d)) = (fst (updateQualityChange d), []).
Proof.
  rewrite updateQualityChange_fst. unfold updateQualityChange at 1.
  cbn [mkDQ initialized maxSubscribedQuality].
  assert (Hr : recomputeQuality (mkDQ true (maxSubscriberQuality d) (maxSubscriberNodeQuality d)
                                     (recomputeQuality d) d) = recomputeQuality d) by reflexivity.
  rewrite Hr.
  assert (He : VideoQuality_eqb (recomputeQuality d) (recomputeQuality d) = true)
    by (apply VideoQuality_eqb_spec; reflexivity).
  rewrite He. reflexivity.
Qed.

Lemma report_idemp (m : gmap string VideoQuality) (k : string) (q : VideoQuality) :
  (if isOff q then delete k (if isOff q then delete k m else <[k := q]> m)
   else <[k := q]> (if isOff q then delete k m else <[k := q]> m)) =
  (if isOff q then delete k m else <[k := q]> m).
Proof.
  destruct (isOff q).
  - apply delete_delete_eq.
  - apply insert_insert_eq.
Qed.

Lemma report_commute (m : gmap string VideoQuality) (k1 k2 : string) (q1 q2 : VideoQuality) :
  k1 <> k2 ->
  (if isOff q2 then delete k2 (if isOff q1 then delete k1 m else <[k1 := q1]> m)
   else <[k2 := q2]> (if isOff q1 then delete k1 m else <[k1 := q1]> m)) =
  (if isOff q1 then delete k1 (if isOff q2 then delete k2 m else <[k2 := q2]> m)
   else <[k1 := q1]> (if isOff q2 then delete k2 m else <[k2 := q2]> m)).
Proof.
  intros Hne. destruct (isOff q1), (isOff q2).
  - apply delete_delete.
  - rewrite delete_insert_ne by congruence. reflexivity.
  - rewrite insert_delete_ne by congruence. reflexivity.
  - apply insert_insert_ne. congruence.
Qed.

Lemma qualityRun_two (op1 op2 : QualityOp) (d : DynacastQuality) :
  fst (qualityRun [op1; op2] d) = fst (qualityStep op2 (fst (qualityStep op1 d))).
Proof.
  cbn [qualityRun]. destruct (qualityStep op1 d) as [d1 c1]. cbn [fst].
  destruct (qualityStep op2 d1) as [d2 c2]. reflexivity.
Qed.

(** X15: after Start or Restart (reset), the next recompute, by a report or by the quality timer, calls the registered callback with the new aggregate even if it equals HIGH, and marks the aggregator initialized; the timer firing also disarms itself. *)
Theorem reset_forces_notification (d : DynacastQuality) (op : QualityOp) :
  (let '(d1, cb1) := qualityStep op (reset d) in
   cb1 = (if onSubscribedMaxQualityChange d then [maxSubscribedQuality d1] else []) /\
   initialized d1 = true) /\
  (let '(d2, cb2) := maxQualityTimerFire (reset d) in
   cb2 = (if onSubscribedMaxQualityChange d then [recomputeQuality d] else []) /\
   initialized d2 = true /\ maxSubscribedQuality d2 = recomputeQuality d /\
   maxQualityTimer d2 = false).
Proof.
  split.
  - destruct op as [id q|id q]; cbn [qualityStep];
      unfold NotifySubscriberMaxQuality, NotifySubscriberNodeMaxQuality, updateQualityChange;
      cbn [reset startMaxQualityTimer mkDQ initialized maxSubscribedQuality maxSubscriberQuality
           maxSubscriberNodeQuality onSubscribedMaxQualityChange];
      rewrite andb_false_r; cbn; auto.
  - unfold maxQualityTimerFire, reset, updateQualityChange. cbn.
    rewrite andb_false_r. cbn. auto.
Qed.

(** X16: the quality timer fires at most once: after Stop it does nothing, after it has fired it does nothing, and subscriber or node reports never arm or disarm it. *)
Theorem maxQualityTimer_one_shot (d : DynacastQuality) :
  maxQualityTimerFire (Stop d) = (Stop d, []) /\
  maxQualityTimerFire (fst (maxQualityTimerFire d)) = (fst (maxQualityTimerFire d), []) /\
  (forall op, maxQualityTimer (fst (qualityStep op d)) = maxQualityTimer d).
Proof.
  split; [reflexivity|split].
  - unfold maxQualityTimerFire at 2. destruct (maxQualityTimer d) eqn:Ht.
    + unfold maxQualityTimerFire. rewrite Ht, updateQualityChange_fst. reflexivity.
    + unfold maxQualityTimerFire. cbn [fst]. rewrite Ht. reflexivity.
  - intros [id q|id q]; cbn [qualityStep];
      unfold NotifySubscriberMaxQuality, NotifySubscriberNodeMaxQuality;
      rewrite updateQualityChange_fst; reflexivity.
Qed.

(** X17: repeating the last subscriber or node report leaves the aggregator unchanged and calls no callback. *)
Theorem repeated_report_silent (op : QualityOp) (d : DynacastQuality) :
  qualityStep op (fst (qualityStep op d)) = (fst (qualityStep op d), []).
Proof.
  destruct op as [id q|id q]; cbn [qualityStep];
    unfold NotifySubscriberMaxQuality, NotifySubscriberNodeMaxQuality;
    rewrite updateQualityChange_fst;
    cbn [mkDQ initialized maxSubscriberQuality maxSubscriberNodeQuality maxSubscribedQuality];
    rewrite report_idemp;
    match goal with |- updateQualityChange ?d0 = _ =>
      pose proof (updateQualityChange_again d0) as H end;
    rewrite updateQualityChange_fst in H; exact H.
Qed.

(** X18: a report sets exactly its own entry: afterwards the reporter's entry is the reported quality, or absent for OFF, and every other entry of both maps is unchanged. *)
Theorem report_lookup (op : QualityOp) (d : DynacastQuality) :
  let d' := fst (qualityStep op d) in
  match op with
  | NotifySubscriber id q =>
      maxSubscriberQuality d' !! id = (if isOff q then None else Some q) /\
      (forall k, k <> id -> maxSubscriberQuality d' !! k = maxSubscriberQuality d !! k) /\
      maxSubscriberNodeQuality d' = maxSubscriberNodeQuality d
  | NotifySubscriberNode id q =>
      maxSubscriberNodeQuality d' !! id = (if isOff q then None else Some q) /\
      (forall k, k <> id -> maxSubscriberNodeQuality d' !! k = maxSubscriberNodeQuality d !! k) /\
      maxSubscriberQuality d' = maxSubscriberQuality d
  end.
Proof.
  destruct op as [id q|id q]; cbn [qualityStep];
    unfold NotifySubscriberMaxQuality, NotifySubscriberNodeMaxQuality;
    rewrite updateQualityChange_fst;
    cbn [mkDQ maxSubscriberQuality maxSubscriberNodeQuality];
    (split; [|split; [intros k Hk|reflexivity]]);
    destruct (isOff q).
  all: first [ apply lookup_delete_eq | apply lookup_insert_eq
             | apply lookup_delete_ne; congruence | apply lookup_insert_ne; congruence ].
Qed.

(** X19: two reports about different entries commute: applied in either order they leave the aggregator in the same state. *)
Theorem reports_commute (op1 op2 : QualityOp) (d : DynacastQuality)
  (Hne : qualityOpKey op1 <> qualityOpKey op2) :
  fst (qualityRun [op1; op2] d) = fst (qualityRun [op2; op1] d).
Proof.
  rewrite !qualityRun_two.
  destruct op1 as [id1 q1|id1 q1], op2 as [id2 q2|id2 q2]; cbn [qualityStep];
    unfold NotifySubscriberMaxQuality, NotifySubscriberNodeMaxQuality;
    rewrite !updateQualityChange_fst;
    cbn [mkDQ initialized maxSubscriberQuality maxSubscriberNodeQuality maxSubscribedQuality
         maxQualityTimer onSubscribedMaxQualityChange];
    try (rewrite (report_commute _ id1 id2 q1 q2) by (cbn in Hne; congruence));
    reflexivity.
Qed.

Lemma reports_commute_witness :
  qualityOpKey (NotifySubscriber "a" VideoQuality_HIGH) <>
    qualityOpKey (NotifySubscriber "b" VideoQuality_OFF) /\
  fst (qualityRun [NotifySubscriber "a" VideoQuality_HIGH; NotifySubscriber "b" VideoQuality_OFF]
         NewDynacastQuality) =
  fst (qualityRun [NotifySubscriber "b" VideoQuality_OFF; NotifySubscriber "a" VideoQuality_HIGH]
         NewDynacastQuality).
Proof.
  split; [cbn; discriminate|].
  apply reports_commute. cbn. discriminate.
Defined.
